(** * rag-universe: the Universe RAG adapter, embedded and verified

    The repository holds two versions of the [UniverseRAG] class:

    - [Simple]     : [src/index.ts], which defers every check to [init] and
                     has no retry;
    - [Validating] : the version documented next to the README, which
                     validates its configuration in the constructor, checks
                     the [fileId] of every operation, and retries a failed
                     request once.

    Both are embedded below over a common model of the JavaScript values,
    strings and promises they use. *)

From Stdlib Require Import List NArith Ascii String Bool Lia DecimalString.
From stdpp Require Import base option list gmap.
Import ListNotations.

Local Open Scope N_scope.
Local Open Scope list_scope.

(** ** JavaScript strings

    A JavaScript string is a sequence of UTF-16 code units; the regular
    expressions of the source carry no [u] flag and [trim] only looks at
    code units of the basic plane, so the code unit is the character of
    this development. *)

Abbreviation jsstring := (list N).

Fixpoint lit (s : string) : jsstring :=
  match s with
  | EmptyString => []
  | String c r => N_of_ascii c :: lit r
  end.

(** [`${n}`] for a non-negative integer. *)
Definition decimal (n : N) : jsstring := lit (NilZero.string_of_uint (N.to_uint n)).

(** ** Regular expressions of the source

    The two patterns in the source are built from one character class
    each; a class is a list of inclusive code unit ranges, possibly
    negated. *)

Record CharClass := { negated : bool; ranges : list (N * N) }.

Definition in_range (c : N) (r : N * N) : bool := (fst r <=? c) && (c <=? snd r).

Definition class_matches (cls : CharClass) (c : N) : bool :=
  xorb (negated cls) (existsb (in_range c) (ranges cls)).

(** [s.replace(/cls/g, by)]: scan left to right, a matching code unit is
    replaced, any other is copied. *)
Fixpoint replace_all (cls : CharClass) (by_ : jsstring) (s : jsstring) : jsstring :=
  match s with
  | [] => []
  | c :: rest =>
      if class_matches cls c then by_ ++ replace_all cls by_ rest
      else c :: replace_all cls by_ rest
  end.

(** [/^cls+$/.test(s)]: without the [m] flag the anchors are the two ends
    of the input. *)
Definition test_anchored_plus (cls : CharClass) (s : jsstring) : bool :=
  match s with
  | [] => false
  | _ => forallb (class_matches cls) s
  end.

Definition range_of (lo hi : string) : N * N :=
  (hd 0 (lit lo), hd 0 (lit hi)).

(** [[^a-zA-Z0-9]] *)
Definition non_alnum : CharClass :=
  {| negated := true;
     ranges := [range_of "a" "z"; range_of "A" "Z"; range_of "0" "9"] |}.

(** [[a-zA-Z0-9_]] *)
Definition word_char : CharClass :=
  {| negated := false;
     ranges := [range_of "a" "z"; range_of "A" "Z"; range_of "0" "9"; range_of "_" "_"] |}.

(** ** The words of the specification about characters *)

Definition is_alnum (c : N) : bool :=
  ((97 <=? c) && (c <=? 122)) || ((65 <=? c) && (c <=? 90)) || ((48 <=? c) && (c <=? 57)).

Definition underscore : N := 95.

Definition sanitize (c : N) : N := if is_alnum c then c else underscore.

(** ** JavaScript values

    The values that reach the client: what [JSON.parse] builds, plus
    [undefined] (an unset field, an omitted argument, a missing property).
    A number is held as the digits [Number::toString] prints for it:
    [JSON.parse] yields no [NaN], and the numbers printed as [0] are the
    two zeros, which are the falsy ones. *)

#[local] Set Warnings "-register-all".

Inductive Value : Type :=
  | VUndefined
  | VNull
  | VBool (b : bool)
  | VNumber (digits : jsstring)
  | VString (s : jsstring)
  | VArray (items : list Value)
  | VObject (props : list (jsstring * Value)).

Definition jsstring_eqb (a b : jsstring) : bool := bool_decide (a = b).

(** [ToBoolean] *)
Definition truthy (v : Value) : bool :=
  match v with
  | VUndefined | VNull => false
  | VBool b => b
  | VNumber d => negb (jsstring_eqb d (lit "0"))
  | VString s => negb (jsstring_eqb s [])
  | VArray _ | VObject _ => true
  end.

Fixpoint join (sep : jsstring) (parts : list jsstring) : jsstring :=
  match parts with
  | [] => []
  | [p] => p
  | p :: rest => p ++ sep ++ join sep rest
  end.

(** A field of the class that may still be unset. *)
Definition of_field (f : option jsstring) : Value :=
  match f with
  | Some s => VString s
  | None => VUndefined
  end.

(** How a template literal shows a field of the class: the string it
    holds, or the text [undefined] while it is unset. *)
Definition shown (f : option jsstring) : jsstring :=
  match f with
  | Some s => s
  | None => lit "undefined"
  end.

Fixpoint lookup_prop (key : jsstring) (props : list (jsstring * Value)) : Value :=
  match props with
  | [] => VUndefined
  | (k, v) :: rest => if jsstring_eqb k key then v else lookup_prop key rest
  end.

(** The object has an own property [key]. *)
Fixpoint has_prop (key : jsstring) (props : list (jsstring * Value)) : bool :=
  match props with
  | [] => false
  | (k, _) :: rest => jsstring_eqb k key || has_prop key rest
  end.

(** ** Errors and completions *)

Inductive ErrorName := NError | NTypeError | NSyntaxError.

Record Error := { name : ErrorName; message : jsstring }.

(** [new Error(msg)] *)
Definition new_Error (msg : jsstring) : Error := {| name := NError; message := msg |}.

Inductive completion (A : Type) : Type :=
  | Normal (a : A)
  | Throw (e : Error).
Arguments Normal {A} a.
Arguments Throw {A} e.

(** The [TypeError] of a conversion to a primitive value that finds no
    method to call. The wording is V8's. *)
Definition cannot_convert : Error :=
  {| name := NTypeError; message := lit "Cannot convert object to primitive value" |}.

(** [ToString], as a template literal applies it. A primitive value
    prints as itself. An array prints its elements separated by commas,
    with [null] and [undefined] elements empty, and throws when an element
    does. An object is converted by its [toString] method: a parsed object
    with no own [toString] inherits the one that prints
    [[object Object]]; an own [toString] property of a parsed object is a
    JSON value, never a function, and then neither it nor [valueOf]
    yields a primitive value, so the conversion throws. *)
Fixpoint to_string (v : Value) : completion jsstring :=
  match v with
  | VUndefined => Normal (lit "undefined")
  | VNull => Normal (lit "null")
  | VBool true => Normal (lit "true")
  | VBool false => Normal (lit "false")
  | VNumber d => Normal d
  | VString s => Normal s
  | VArray items =>
      match
        (fix elements (xs : list Value) : completion (list jsstring) :=
           match xs with
           | [] => Normal []
           | x :: rest =>
               match
                 match x with
                 | VUndefined | VNull => Normal []
                 | _ => to_string x
                 end
               with
               | Throw e => Throw e
               | Normal part =>
                   match elements rest with
                   | Throw e => Throw e
                   | Normal parts => Normal (part :: parts)
                   end
               end
           end) items
      with
      | Throw e => Throw e
      | Normal parts => Normal (join (lit ",") parts)
      end
  | VObject props =>
      if has_prop (lit "toString") props then Throw cannot_convert
      else Normal (lit "[object Object]")
  end.

(** [v.key] for a property name that no prototype provides ([error] and
    [description] are such names): reading a property of [null] or
    [undefined] throws, an object yields its own property, any other value
    yields [undefined]. The wording of the [TypeError] is the engine's;
    the source catches it without reading it. *)
Definition get_prop (v : Value) (key : jsstring) : completion Value :=
  match v with
  | VUndefined =>
      Throw {| name := NTypeError; message := lit "Cannot read properties of undefined" |}
  | VNull =>
      Throw {| name := NTypeError; message := lit "Cannot read properties of null" |}
  | VObject props => Normal (lookup_prop key props)
  | _ => Normal VUndefined
  end.

(** ** JSON.stringify *)

Definition hex_digit (n : N) : N :=
  if n <? 10 then 48 + n else 87 + n.

(** [\uXXXX], four lower-case hexadecimal digits. *)
Definition unicode_escape (c : N) : jsstring :=
  lit "\u" ++ [hex_digit ((c / 4096) mod 16); hex_digit ((c / 256) mod 16);
               hex_digit ((c / 16) mod 16); hex_digit (c mod 16)].

Definition is_high_surrogate (c : N) : bool := (55296 <=? c) && (c <=? 56319).
Definition is_low_surrogate (c : N) : bool := (56320 <=? c) && (c <=? 57343).

Definition escape_unit (c : N) : jsstring :=
  if c =? 8 then lit "\b"
  else if c =? 9 then lit "\t"
  else if c =? 10 then lit "\n"
  else if c =? 12 then lit "\f"
  else if c =? 13 then lit "\r"
  else if c =? 34 then [92; 34]
  else if c =? 92 then [92; 92]
  else if c <? 32 then unicode_escape c
  else [c].

(** The characters of a quoted JSON string: a surrogate pair is copied, a
    lone surrogate is escaped. *)
Fixpoint quote_units (s : jsstring) : jsstring :=
  match s with
  | [] => []
  | c :: rest =>
      if is_high_surrogate c then
        match rest with
        | d :: rest' =>
            if is_low_surrogate d then c :: d :: quote_units rest'
            else unicode_escape c ++ quote_units rest
        | [] => unicode_escape c
        end
      else if is_low_surrogate c then unicode_escape c ++ quote_units rest
      else escape_unit c ++ quote_units rest
  end.

Definition quote (s : jsstring) : jsstring := [34] ++ quote_units s ++ [34].

(** [JSON.stringify(v)] for a value other than [undefined]: a property
    whose value is [undefined] is left out, an [undefined] array element
    is printed as [null]. *)
Fixpoint stringify (v : Value) : jsstring :=
  match v with
  | VUndefined => lit "null"
  | VNull => lit "null"
  | VBool true => lit "true"
  | VBool false => lit "false"
  | VNumber d => d
  | VString s => quote s
  | VArray items => lit "[" ++ join (lit ",") (map stringify items) ++ lit "]"
  | VObject props =>
      lit "{" ++
      join (lit ",")
        ((fix members (ps : list (jsstring * Value)) : list jsstring :=
            match ps with
            | [] => []
            | (k, VUndefined) :: rest => members rest
            | (k, x) :: rest => (quote k ++ lit ":" ++ stringify x) :: members rest
            end) props)
      ++ lit "}"
  end.

(** ** String.prototype.trim *)

(** [WhiteSpace] and [LineTerminator] of the language. *)
Definition is_white_space (c : N) : bool :=
  ((9 <=? c) && (c <=? 13)) || (c =? 32) || (c =? 160) || (c =? 5760)
  || ((8192 <=? c) && (c <=? 8202)) || (c =? 8232) || (c =? 8233)
  || (c =? 8239) || (c =? 8287) || (c =? 12288) || (c =? 65279).

Fixpoint trimStart (s : jsstring) : jsstring :=
  match s with
  | [] => []
  | c :: rest => if is_white_space c then trimStart rest else s
  end.

Definition trimEnd (s : jsstring) : jsstring := rev (trimStart (rev s)).

Definition trim (s : jsstring) : jsstring := trimEnd (trimStart s).

(** ** Promises, the network and timers

    An asynchronous function is a computation over the log of what the
    client has asked of its platform so far: the requests handed to
    [fetch] and the timers set. The network is any function that answers a
    request, given that log, with a response or with a rejection (a
    transport failure, for which no response exists). *)

Record RequestInit := {
  method : jsstring;
  headers : list (jsstring * jsstring);
  body : option jsstring
}.

Record Response := {
  status : N;
  statusText : jsstring;
  json : completion Value      (* what [response.json()] settles to *)
}.

(** [response.ok]: the status is in the range 200-299. *)
Definition ok (r : Response) : bool := (200 <=? status r) && (status r <=? 299).

Inductive event :=
  | Fetch (url : jsstring) (options : RequestInit)
  | SetTimeout (ms : N).

Definition network := list event -> jsstring -> RequestInit -> completion Response.

(** What a method of a client of class [C] can read and change: the
    fields of [this] and the log. *)
Record world (C : Type) := { this : C; log : list event }.
Arguments this {C} w.
Arguments log {C} w.

Definition async (C A : Type) : Type := world C -> completion A * world C.

Section Async.

Context {C : Type}.

Definition ret {A} (a : A) : async C A := fun w => (Normal a, w).

Definition throw {A} (e : Error) : async C A := fun w => (Throw e, w).

Definition bind {A B} (m : async C A) (k : A -> async C B) : async C B :=
  fun w =>
    match m w with
    | (Normal a, w') => k a w'
    | (Throw e, w') => (Throw e, w')
    end.

(** [try { m } catch (e) { handler e }] *)
Definition try_catch {A} (m : async C A) (handler : Error -> async C A) : async C A :=
  fun w =>
    match m w with
    | (Normal a, w') => (Normal a, w')
    | (Throw e, w') => handler e w'
    end.

(** A promise that is already settled. *)
Definition settled {A} (c : completion A) : async C A := fun w => (c, w).

(** Reading the fields of [this]. *)
Definition self : async C C := fun w => (Normal (this w), w).

(** An assignment to a field of [this]. *)
Definition assign (f : C -> C) : async C unit :=
  fun w => (Normal tt, {| this := f (this w); log := log w |}).

Definition fetch (net : network) (url : jsstring) (options : RequestInit) : async C Response :=
  fun w => (net (log w) url options,
            {| this := this w; log := log w ++ [Fetch url options] |}).

(** [new Promise(resolve => setTimeout(resolve, ms))] *)
Definition sleep (ms : N) : async C unit :=
  fun w => (Normal tt, {| this := this w; log := log w ++ [SetTimeout ms] |}).

End Async.

(** [const x = await m; k] *)
Notation "'let!' x ':=' m 'in' k" := (bind m (fun x => k))
  (at level 10, x binder, k at level 200).

(** The configuration and the credentials are objects read at string
    keys; the source reads their values [as string], and they are maps
    from strings to strings here. The keys read (["serverUrl"],
    ["universe"], a name starting with ["universe_token_"]) are none that
    [Object.prototype] answers for.

    [!o[key]]: the key is absent or holds the empty string. *)
Definition missing (o : gmap jsstring jsstring) (key : jsstring) : bool :=
  match o !! key with
  | None => true
  | Some s => jsstring_eqb s []
  end.

Definition is_fetch (e : event) : bool :=
  match e with Fetch _ _ => true | SetTimeout _ => false end.

(** The requests of a log, in order. *)
Definition requests (log : list event) : list event := List.filter is_fetch log.

(** [needle] occurs in [s]. *)
Fixpoint starts_with (needle s : jsstring) : bool :=
  match needle, s with
  | [], _ => true
  | _ :: _, [] => false
  | a :: n', b :: s' => (a =? b) && starts_with n' s'
  end.

Fixpoint includes (needle s : jsstring) : bool :=
  starts_with needle s ||
  match s with
  | [] => false
  | _ :: s' => includes needle s'
  end.

Definition dquote : jsstring := [34].

(** [o[key] as string], read after [o[key]] was found truthy. *)
Definition as_string (v : option jsstring) : jsstring := default [] v.

(** * The client of [src/index.ts] *)

Module Simple.

Record UniverseRAG := {
  serverUrl : option jsstring;
  universe : option jsstring;
  token : option jsstring;
  config : gmap jsstring jsstring
}.

Definition constructor (config : gmap jsstring jsstring) : UniverseRAG :=
  {| serverUrl := None; universe := None; token := None; config := config |}.

Definition generateCredentialName (serverUrl : jsstring) : jsstring :=
  lit "universe_token_" ++ replace_all non_alnum (lit "_") serverUrl.

Definition requiredCredentials (this : UniverseRAG) : completion (gmap jsstring jsstring) :=
  if missing (config this) (lit "serverUrl") then
    Throw (new_Error (lit "serverUrl must be specified in the config to determine the credential name"))
  else
    let serverUrl := as_string (config this !! lit "serverUrl") in
    let credentialName := generateCredentialName serverUrl in
    Normal {[ credentialName :=
                lit "The bearer token for the Universe server. Contact the admins or use "
                ++ serverUrl ++ lit " to obtain access." ]}.

Definition set_serverUrl (v : option jsstring) (c : UniverseRAG) : UniverseRAG :=
  {| serverUrl := v; universe := universe c; token := token c; config := config c |}.

Definition set_universe (v : option jsstring) (c : UniverseRAG) : UniverseRAG :=
  {| serverUrl := serverUrl c; universe := v; token := token c; config := config c |}.

Definition set_token (v : option jsstring) (c : UniverseRAG) : UniverseRAG :=
  {| serverUrl := serverUrl c; universe := universe c; token := v; config := config c |}.

Definition init (credentials config : gmap jsstring jsstring) : async UniverseRAG unit :=
  if missing config (lit "serverUrl") then
    throw (new_Error (lit "serverUrl must be specified in the config"))
  else if missing config (lit "universe") then
    throw (new_Error (lit "universe must be specified in the config"))
  else
    let credentialName := generateCredentialName (as_string (config !! lit "serverUrl")) in
    if missing credentials credentialName then
      throw (new_Error (lit "Credential " ++ dquote ++ credentialName ++ dquote
                        ++ lit " is required"))
    else
      let! _ := assign (set_serverUrl (config !! lit "serverUrl")) in
      let! _ := assign (set_universe (config !! lit "universe")) in
      assign (set_token (credentials !! credentialName)).

Section Requests.

Variable net : network.

Definition fetchApi (endpoint method : jsstring) (body : Value) : async UniverseRAG Value :=
  let! this := self in
  let url := shown (serverUrl this) ++ endpoint in
  let headers :=
    [(lit "Content-Type", lit "application/json");
     (lit "Authorization", lit "Bearer " ++ shown (token this))] in
  let options :=
    Build_RequestInit method headers
      (if truthy body then Some (stringify body) else None) in
  let! response := fetch net url options in
  if negb (ok response) then
    throw (new_Error (lit "API request to " ++ url ++ lit " failed: " ++ statusText response))
  else settled (json response).

Definition addFile (fileId content : jsstring) : async UniverseRAG unit :=
  let! this := self in
  let! _ := fetchApi (lit "/emit") (lit "POST")
              (VObject [(lit "universe", of_field (universe this));
                        (lit "thing", VObject [(lit "id", VString fileId);
                                               (lit "text", VString content)])]) in
  ret tt.

Definition updateFile (fileId content : jsstring) : async UniverseRAG unit :=
  let! _ := addFile fileId content in
  ret tt.

Definition deleteFile (fileId : jsstring) : async UniverseRAG unit :=
  let! this := self in
  let! _ := fetchApi
              (lit "/thing/" ++ shown (universe this) ++ lit "/" ++ fileId)
              (lit "DELETE") VUndefined in
  ret tt.

Definition finalize : async UniverseRAG unit := ret tt.

Definition deleteAllFiles : async UniverseRAG unit :=
  let! this := self in
  let! _ := fetchApi (lit "/universe/" ++ shown (universe this))
              (lit "DELETE") VUndefined in
  ret tt.

End Requests.

End Simple.

(** * The validating client with the retry *)

Module Validating.

Record UniverseRAG := {
  serverUrl : jsstring;
  universe : jsstring;
  token : option jsstring
}.

Definition set_token (v : option jsstring) (c : UniverseRAG) : UniverseRAG :=
  {| serverUrl := serverUrl c; universe := universe c; token := v |}.

Section Construction.

(** [new URL(s)] returns rather than throws. The parser belongs to the
    platform. *)
Variable URL_parses : jsstring -> bool.

Definition constructor (config : gmap jsstring jsstring) : completion UniverseRAG :=
  if missing config (lit "serverUrl") then
    Throw (new_Error (lit "serverUrl must be specified in the config"))
  else if missing config (lit "universe") then
    Throw (new_Error (lit "universe must be specified in the config"))
  else
    let serverUrl := as_string (config !! lit "serverUrl") in
    let universe := as_string (config !! lit "universe") in
    if negb (URL_parses serverUrl) then
      Throw (new_Error (lit "serverUrl must be a valid URL"))
    else if negb (test_anchored_plus word_char universe) then
      Throw (new_Error (lit "universe must be alphanumeric with underscores"))
    else
      Normal {| serverUrl := serverUrl; universe := universe; token := None |}.

End Construction.

Definition generateCredentialName (serverUrl : jsstring) : jsstring :=
  lit "universe_token_" ++ replace_all non_alnum (lit "_") serverUrl.

Definition requiredCredentials (this : UniverseRAG) : gmap jsstring jsstring :=
  let credentialName := generateCredentialName (serverUrl this) in
  {[ credentialName :=
       lit "Obtain the bearer token for the Universe server. Contact the admins or use "
       ++ serverUrl this ++ lit " to obtain access." ]}.

Definition init (credentials : gmap jsstring jsstring) : async UniverseRAG unit :=
  let! this := self in
  let credentialName := generateCredentialName (serverUrl this) in
  if missing credentials credentialName then
    throw (new_Error (lit "Credential " ++ dquote ++ credentialName ++ dquote
                      ++ lit " is required"))
  else
    assign (set_token (credentials !! credentialName)).

Definition handleResponse (response : Response) : async UniverseRAG Value :=
  if ok response then settled (json response)
  else
    let! errorMessage :=
      try_catch
        (let! errorData := settled (json response) in
         let! error := settled (get_prop errorData (lit "error")) in
         if truthy error then ret error
         else
           let! description := settled (get_prop errorData (lit "description")) in
           if truthy description then ret description
           else ret (VString (statusText response)))
        (fun _ => ret (VString (statusText response))) in
    let! text := settled (to_string errorMessage) in
    throw (new_Error (lit "API request failed: " ++ decimal (status response)
                      ++ lit " - " ++ text)).

Section Requests.

Variable net : network.

Definition fetchApi (endpoint method : jsstring) (body : Value) : async UniverseRAG Value :=
  let! this := self in
  let url := serverUrl this ++ endpoint in
  let headers :=
    [(lit "Content-Type", lit "application/json");
     (lit "Authorization", lit "Bearer " ++ shown (token this))] in
  let options :=
    Build_RequestInit method headers
      (if truthy body then Some (stringify body) else None) in
  try_catch
    (let! response := fetch net url options in
     handleResponse response)
    (fun error =>
       let! _ := sleep 1000 in
       try_catch
         (let! response := fetch net url options in
          handleResponse response)
         (fun secondError =>
            throw (new_Error (lit "API request failed after retry: "
                              ++ message secondError)))).

(** [fileId] and [content] are strings, as the signature declares them:
    the two [typeof] guards of the source do not fire at that type, which
    leaves the test of the trimmed [fileId]. *)
Definition addFile (fileId content : jsstring) : async UniverseRAG unit :=
  if jsstring_eqb (trim fileId) [] then
    throw (new_Error (lit "fileId must be a non-empty string"))
  else
    let! this := self in
    let! _ := fetchApi (lit "/emit") (lit "POST")
                (VObject [(lit "universe", VString (universe this));
                          (lit "thing", VObject [(lit "id", VString fileId);
                                                 (lit "text", VString content)])]) in
    ret tt.

Definition updateFile (fileId content : jsstring) : async UniverseRAG unit :=
  let! _ := addFile fileId content in
  ret tt.

Definition deleteFile (fileId : jsstring) : async UniverseRAG unit :=
  if jsstring_eqb (trim fileId) [] then
    throw (new_Error (lit "fileId must be a non-empty string"))
  else
    let! this := self in
    let! _ := fetchApi (lit "/thing/" ++ universe this ++ lit "/" ++ fileId)
                (lit "DELETE") VUndefined in
    ret tt.

Definition finalize : async UniverseRAG unit := ret tt.

Definition deleteAllFiles : async UniverseRAG unit :=
  let! this := self in
  let! _ := fetchApi (lit "/universe/" ++ universe this) (lit "DELETE") VUndefined in
  ret tt.

End Requests.

End Validating.

(** * Properties *)

(** ** The error taxonomy

    The source throws plain [Error]s; the classes of the specification are
    told apart by the message of the throw site. *)

Definition ConfigError (e : Error) : Prop :=
  In e (map new_Error
          [lit "serverUrl must be specified in the config";
           lit "universe must be specified in the config";
           lit "serverUrl must be a valid URL";
           lit "universe must be alphanumeric with underscores"]).

Definition CredentialError (credentialName : jsstring) (e : Error) : Prop :=
  e = new_Error (lit "Credential " ++ dquote ++ credentialName ++ dquote ++ lit " is required").

Definition ValidationError (e : Error) : Prop :=
  e = new_Error (lit "fileId must be a non-empty string").

(** ** Requests and answers, as the specification words them *)

Definition json_headers (token : jsstring) : list (jsstring * jsstring) :=
  [(lit "Content-Type", lit "application/json");
   (lit "Authorization", lit "Bearer " ++ token)].

(** The text [{"universe":U,"thing":{"id":I,"text":T}}], each string
    quoted as JSON quotes it. *)
Definition emit_body (universe fileId content : jsstring) : jsstring :=
  lit "{" ++ quote (lit "universe") ++ lit ":" ++ quote universe ++ lit ","
  ++ quote (lit "thing") ++ lit ":{"
  ++ quote (lit "id") ++ lit ":" ++ quote fileId ++ lit ","
  ++ quote (lit "text") ++ lit ":" ++ quote content ++ lit "}}".

Definition emit_url (serverUrl : jsstring) : jsstring := serverUrl ++ lit "/emit".

Definition emit_options (universe token fileId content : jsstring) : RequestInit :=
  {| method := lit "POST";
     headers := json_headers token;
     body := Some (emit_body universe fileId content) |}.

Definition emit_request (serverUrl universe token fileId content : jsstring) : event :=
  Fetch (emit_url serverUrl) (emit_options universe token fileId content).

Definition delete_request (serverUrl universe token fileId : jsstring) : event :=
  Fetch (serverUrl ++ lit "/thing/" ++ universe ++ lit "/" ++ fileId)
    {| method := lit "DELETE"; headers := json_headers token; body := None |}.

(** The property [key] of the parsed body, [undefined] when the body does
    not parse to an object. *)
Definition body_field (response : Response) (key : jsstring) : Value :=
  match json response with
  | Normal (VObject props) => lookup_prop key props
  | _ => VUndefined
  end.

(** The body's [error], else its [description], else the status text. *)
Definition error_message (response : Response) : Value :=
  if truthy (body_field response (lit "error")) then body_field response (lit "error")
  else if truthy (body_field response (lit "description"))
       then body_field response (lit "description")
       else VString (statusText response).

(** The message of the error made from a response: the status code and
    the message found for it. *)
Definition api_message (status : N) (msg : jsstring) : jsstring :=
  lit "API request failed: " ++ decimal status ++ lit " - " ++ msg.

Definition ApiError (response : Response) (msg : jsstring) : Error :=
  new_Error (api_message (status response) msg).

(** What one response is turned into: its parsed body when the status is
    in 200-299; otherwise the error made from it, or the [TypeError] of
    the message that does not convert to a string. *)
Definition answer (response : Response) : completion Value :=
  if ok response then json response
  else
    match to_string (error_message response) with
    | Normal msg => Throw (ApiError response msg)
    | Throw e => Throw e
    end.

(** What one attempt of a request comes to: a transport failure, or the
    answer of the response. *)
Definition attempt (c : completion Response) : completion Value :=
  match c with
  | Normal response => answer response
  | Throw e => Throw e
  end.

(** ** Configurations, as the specification words them *)

(** [[A-Za-z0-9_]] *)
Definition is_word (c : N) : bool := is_alnum c || (c =? underscore).

(** The server URL is missing or does not parse, or the universe name is
    missing or has a character outside [[A-Za-z0-9_]]. *)
Definition config_invalid (URL_parses : jsstring -> bool)
    (config : gmap jsstring jsstring) : bool :=
  match config !! lit "serverUrl" with
  | None => true
  | Some s => negb (URL_parses s)
  end
  || match config !! lit "universe" with
     | None => true
     | Some u => negb (forallb is_word u)
     end.

(** The server URL parses and the universe name matches
    [^[A-Za-z0-9_]+$]. *)
Definition config_wellformed (URL_parses : jsstring -> bool)
    (config : gmap jsstring jsstring) : bool :=
  match config !! lit "serverUrl" with
  | None => false
  | Some s => URL_parses s
  end
  && match config !! lit "universe" with
     | None => false
     | Some u => negb (jsstring_eqb u []) && forallb is_word u
     end.

(** ** Sample clients and networks *)

Definition sample_simple : Simple.UniverseRAG :=
  {| Simple.serverUrl := Some (lit "https://store.example");
     Simple.universe := Some (lit "myuni");
     Simple.token := Some (lit "secret");
     Simple.config := ∅ |}.

Definition sample_validating : Validating.UniverseRAG :=
  {| Validating.serverUrl := lit "https://store.example";
     Validating.universe := lit "myuni";
     Validating.token := Some (lit "secret") |}.

Definition fresh {C : Type} (c : C) : world C := {| this := c; log := [] |}.

Definition response_200 : Response :=
  {| status := 200; statusText := lit "OK"; json := Normal (VObject []) |}.

(** HTTP 404 with the body [{"error":"not found"}]. *)
Definition response_404 : Response :=
  {| status := 404; statusText := lit "Not Found";
     json := Normal (VObject [(lit "error", VString (lit "not found"))]) |}.

Definition net_ok : network := fun _ _ _ => Normal response_200.

Definition net_404 : network := fun _ _ _ => Normal response_404.

Definition connection_refused : Error :=
  {| name := NTypeError; message := lit "fetch failed" |}.

Definition net_down : network := fun _ _ _ => Throw connection_refused.

(** The first request meets a transport failure, every later one is
    answered with 200. *)
Definition net_flaky : network :=
  fun log _ _ =>
    match requests log with
    | [] => Throw connection_refused
    | _ => Normal response_200
    end.

(** The first request is answered with 404, every later one with 200. *)
Definition net_404_then_ok : network :=
  fun log _ _ =>
    match requests log with
    | [] => Normal response_404
    | _ => Normal response_200
    end.

Definition sample_config (serverUrl universe : string) : gmap jsstring jsstring :=
  <[ lit "serverUrl" := lit serverUrl ]> (<[ lit "universe" := lit universe ]> ∅).

Definition sample_credentials : gmap jsstring jsstring :=
  {[ lit "universe_token_https___store_example" := lit "secret" ]}.

(** A stand-in for the URL parser in examples: a letter first, and a
    colon somewhere. *)
Definition sample_URL_parses (s : jsstring) : bool :=
  match s with
  | [] => false
  | c :: _ => (((97 <=? c) && (c <=? 122)) || ((65 <=? c) && (c <=? 90)))
              && includes (lit ":") s
  end.


(** ** Further vocabulary: requests, runs and invariants *)

(** The validating [fetchApi] failed for good on the request [url],
    [options] from the world [w]: the first attempt threw, the attempt
    after the timer threw [secondError], the error thrown is the wrapped
    [secondError], and the world left is [w] with the request, the timer
    and the request again logged. *)
Definition failed_twice (net : network) (w : world Validating.UniverseRAG)
    (url : jsstring) (options : RequestInit)
    (e : Error) (w' : world Validating.UniverseRAG) : Prop :=
  exists firstError secondError,
    attempt (net (log w) url options) = Throw firstError
    /\ attempt (net (log w ++ [Fetch url options; SetTimeout 1000]) url options)
       = Throw secondError
    /\ e = new_Error (lit "API request failed after retry: " ++ message secondError)
    /\ w' = {| this := this w;
               log := log w ++ [Fetch url options; SetTimeout 1000; Fetch url options] |}.


Definition delete_all_request (serverUrl universe token : jsstring) : event :=
  Fetch (serverUrl ++ lit "/universe/" ++ universe)
    {| method := lit "DELETE"; headers := json_headers token; body := None |}.

(** The completion of an operation that awaits a value and returns
    nothing. *)
Definition void {A : Type} (c : completion A) : completion unit :=
  match c with
  | Normal _ => Normal tt
  | Throw e => Throw e
  end.

(** The error [fetchApi] of the validating client throws after its
    second attempt. *)
Definition after_retry (secondError : Error) : Error :=
  new_Error (lit "API request failed after retry: " ++ message secondError).

(** [w'] has the client of [w], and the log of [w] with more at its
    end. *)
Definition extends {C : Type} (w w' : world C) : Prop :=
  this w' = this w /\ exists added, log w' = log w ++ added.

(** Two code units that [generateCredentialName] does not tell apart. *)
Definition same_in_name (a b : N) : Prop :=
  a = b \/ (is_alnum a = false /\ is_alnum b = false).

(** The worlds a validating client can be in: constructed, then any
    sequence of its methods. *)
Inductive validating_reachable (URL_parses : jsstring -> bool) (net : network)
  : world Validating.UniverseRAG -> Prop :=
  | vr_constructor config c :
      Validating.constructor URL_parses config = Normal c ->
      validating_reachable URL_parses net (fresh c)
  | vr_init credentials w :
      validating_reachable URL_parses net w ->
      validating_reachable URL_parses net (snd (Validating.init credentials w))
  | vr_addFile fileId content w :
      validating_reachable URL_parses net w ->
      validating_reachable URL_parses net (snd (Validating.addFile net fileId content w))
  | vr_updateFile fileId content w :
      validating_reachable URL_parses net w ->
      validating_reachable URL_parses net (snd (Validating.updateFile net fileId content w))
  | vr_deleteFile fileId w :
      validating_reachable URL_parses net w ->
      validating_reachable URL_parses net (snd (Validating.deleteFile net fileId w))
  | vr_deleteAllFiles w :
      validating_reachable URL_parses net w ->
      validating_reachable URL_parses net (snd (Validating.deleteAllFiles net w))
  | vr_finalize w :
      validating_reachable URL_parses net w ->
      validating_reachable URL_parses net (snd (Validating.finalize w)).

(** The same for the simple client. *)
Inductive simple_reachable (net : network) (config0 : gmap jsstring jsstring)
  : world Simple.UniverseRAG -> Prop :=
  | sr_constructor :
      simple_reachable net config0 (fresh (Simple.constructor config0))
  | sr_init credentials config w :
      simple_reachable net config0 w ->
      simple_reachable net config0 (snd (Simple.init credentials config w))
  | sr_addFile fileId content w :
      simple_reachable net config0 w ->
      simple_reachable net config0 (snd (Simple.addFile net fileId content w))
  | sr_updateFile fileId content w :
      simple_reachable net config0 w ->
      simple_reachable net config0 (snd (Simple.updateFile net fileId content w))
  | sr_deleteFile fileId w :
      simple_reachable net config0 w ->
      simple_reachable net config0 (snd (Simple.deleteFile net fileId w))
  | sr_deleteAllFiles w :
      simple_reachable net config0 w ->
      simple_reachable net config0 (snd (Simple.deleteAllFiles net w))
  | sr_finalize w :
      simple_reachable net config0 w ->
      simple_reachable net config0 (snd (Simple.finalize w)).

(** The fields of a simple client are unset together or set together, to
    strings that are not empty. *)
Definition simple_fields_together (c : Simple.UniverseRAG) : Prop :=
  (Simple.serverUrl c = None /\ Simple.universe c = None /\ Simple.token c = None)
  \/ (exists s u t,
        Simple.serverUrl c = Some s /\ Simple.universe c = Some u
        /\ Simple.token c = Some t /\ s <> [] /\ u <> [] /\ t <> []).

(** What is logged is a sequence of rounds, each one request, or one
    request sent twice around a timer of one second. *)
Inductive rounds : list event -> Prop :=
  | rounds_nil : rounds []
  | rounds_once url options rest :
      rounds rest -> rounds (Fetch url options :: rest)
  | rounds_twice url options rest :
      rounds rest ->
      rounds (Fetch url options :: SetTimeout 1000 :: Fetch url options :: rest).

(** What holds of a validating client throughout its life. *)
Definition validating_invariant (URL_parses : jsstring -> bool)
    (w : world Validating.UniverseRAG) : Prop :=
  URL_parses (Validating.serverUrl (this w)) = true
  /\ Validating.serverUrl (this w) <> []
  /\ test_anchored_plus word_char (Validating.universe (this w)) = true
  /\ match Validating.token (this w) with
     | None => True
     | Some t => t <> []
     end
  /\ rounds (log w).

(** What holds of a simple client throughout its life. *)
Definition simple_invariant (config0 : gmap jsstring jsstring)
    (w : world Simple.UniverseRAG) : Prop :=
  Simple.config (this w) = config0
  /\ simple_fields_together (this w)
  /\ Forall (fun ev => is_fetch ev = true) (log w).

(** ** Reading a JSON string back *)

Definition hex_value (d : N) : N :=
  if (48 <=? d) && (d <=? 57) then d - 48 else d - 87.

Definition unescape (e : N) : N :=
  if e =? 98 then 8
  else if e =? 116 then 9
  else if e =? 110 then 10
  else if e =? 102 then 12
  else if e =? 114 then 13
  else e.

(** The characters of a JSON string, read up to its closing quote: the
    string they stand for, and the text after the quote. *)
Fixpoint read_string (s : jsstring) : option (jsstring * jsstring) :=
  match s with
  | [] => None
  | c :: rest =>
      if c =? 34 then Some ([], rest)
      else if c =? 92 then
        match rest with
        | [] => None
        | e :: rest1 =>
            if e =? 117 then
              match rest1 with
              | h3 :: h2 :: h1 :: h0 :: rest2 =>
                  match read_string rest2 with
                  | Some (t, r) =>
                      Some (hex_value h3 * 4096 + hex_value h2 * 256
                            + hex_value h1 * 16 + hex_value h0 :: t, r)
                  | None => None
                  end
              | _ => None
              end
            else
              match read_string rest1 with
              | Some (t, r) => Some (unescape e :: t, r)
              | None => None
              end
        end
      else
        match read_string rest with
        | Some (t, r) => Some (c :: t, r)
        | None => None
        end
  end.

(** ** Strings *)

Lemma jsstring_eqb_eq (a b : jsstring) : jsstring_eqb a b = true <-> a = b.
Proof. unfold jsstring_eqb. apply bool_decide_eq_true. Qed.

Lemma jsstring_eqb_neq (a b : jsstring) : jsstring_eqb a b = false <-> a <> b.
Proof. unfold jsstring_eqb. apply bool_decide_eq_false. Qed.

Lemma non_alnum_matches (c : N) : class_matches non_alnum c = negb (is_alnum c).
Proof.
  unfold class_matches, non_alnum, is_alnum, in_range, range_of; cbn.
  rewrite orb_false_r, orb_assoc. reflexivity.
Qed.

Lemma replace_non_alnum (s : jsstring) :
  replace_all non_alnum (lit "_") s = map sanitize s.
Proof.
  induction s as [|c rest IH]; [reflexivity|].
  cbn [replace_all map]. rewrite non_alnum_matches, IH. unfold sanitize.
  destruct (is_alnum c); reflexivity.
Qed.

Lemma trimStart_blank (s : jsstring) :
  forallb is_white_space s = true -> trimStart s = [].
Proof.
  induction s as [|c rest IH]; [reflexivity|].
  cbn [forallb trimStart]. intros H. apply andb_true_iff in H as [Hc Hrest].
  rewrite Hc. auto.
Qed.

Lemma trimStart_nil_blank (s : jsstring) :
  trimStart s = [] -> forallb is_white_space s = true.
Proof.
  induction s as [|c rest IH]; [reflexivity|].
  cbn [forallb trimStart]. destruct (is_white_space c); [auto | discriminate].
Qed.

Lemma trim_blank (s : jsstring) :
  forallb is_white_space s = true -> trim s = [].
Proof.
  intros H. unfold trim, trimEnd. rewrite (trimStart_blank s H). reflexivity.
Qed.

Lemma trimStart_suffix (s : jsstring) : exists p, s = p ++ trimStart s /\ forallb is_white_space p = true.
Proof.
  induction s as [|c rest [p [Hp Hw]]].
  - exists []. split; reflexivity.
  - cbn [trimStart]. destruct (is_white_space c) eqn:Hc.
    + exists (c :: p). split; [cbn; congruence | cbn; rewrite Hc; exact Hw].
    + exists []. split; reflexivity.
Qed.

(** The trimmed string is empty exactly when every code unit is white
    space. *)
Lemma trim_nil_iff (s : jsstring) :
  trim s = [] <-> forallb is_white_space s = true.
Proof.
  split; [|apply trim_blank].
  unfold trim, trimEnd. intros H.
  destruct (trimStart_suffix s) as [p [Hp Hw]].
  assert (Hrev : trimStart (rev (trimStart s)) = []).
  { apply (f_equal (@rev N)) in H. rewrite rev_involutive in H. exact H. }
  apply trimStart_nil_blank in Hrev.
  rewrite Hp, forallb_app, Hw. cbn.
  rewrite forallb_forall in Hrev |- *. intros x Hx. apply Hrev, in_rev.
  rewrite rev_involutive. exact Hx.
Qed.

(** ** The credential name *)

(** C3. The credential name is ["universe_token_"] followed by the server
    URL in which every code unit outside [A-Za-z0-9] has become ["_"] and
    every alphanumeric one stays where it was: the result has fifteen more
    code units than the URL, and position [15 + i] holds the sanitized
    code unit of position [i]. Both clients compute it as a function of
    the URL alone, outside the [async] computations, so equal URLs give
    equal names. *)
Theorem generateCredentialName_sanitizes (serverUrl : jsstring) :
  Simple.generateCredentialName serverUrl = lit "universe_token_" ++ map sanitize serverUrl
  /\ Validating.generateCredentialName serverUrl = Simple.generateCredentialName serverUrl
  /\ length (Simple.generateCredentialName serverUrl) = (15 + length serverUrl)%nat
  /\ (forall (i : nat) (c : N),
        serverUrl !! i = Some c ->
        Simple.generateCredentialName serverUrl !! (15 + i)%nat
        = Some (if is_alnum c then c else underscore)).
Proof.
  assert (E : Simple.generateCredentialName serverUrl
              = lit "universe_token_" ++ map sanitize serverUrl).
  { unfold Simple.generateCredentialName. rewrite replace_non_alnum. reflexivity. }
  split; [exact E|]. split; [reflexivity|]. split.
  - rewrite E, length_app, length_map. reflexivity.
  - intros i c Hc. rewrite E.
    change (15 + i)%nat with (length (lit "universe_token_") + i)%nat.
    rewrite lookup_app_r by lia.
    replace (length (lit "universe_token_") + i - length (lit "universe_token_"))%nat
      with i by lia.
    rewrite list_lookup_fmap, Hc. reflexivity.
Qed.

Lemma generateCredentialName_sanitizes_witness :
  Simple.generateCredentialName (lit "https://store.example")
  = lit "universe_token_https___store_example"
  /\ Simple.generateCredentialName (lit "https://store.example") !! 20%nat
     = Some underscore.
Proof.
  destruct (generateCredentialName_sanitizes (lit "https://store.example"))
    as [Heq [_ [_ Hat]]].
  split.
  - rewrite Heq. vm_compute. reflexivity.
  - exact (Hat 5%nat 58 eq_refl).
Defined.

(** ** Operations that do not reach the network *)

(** C2. [updateFile] only awaits [addFile]: in both clients, from every
    state of the client and of the log, the two leave the same log (the
    same requests: method, URL, headers and body), the same client and the
    same completion (success, or the same error). *)
Theorem updateFile_is_addFile (net : network) (fileId content : jsstring) :
  (forall w, Simple.updateFile net fileId content w = Simple.addFile net fileId content w)
  /\ (forall w, Validating.updateFile net fileId content w
                = Validating.addFile net fileId content w).
Proof.
  split; intros w.
  - unfold Simple.updateFile, bind.
    destruct (Simple.addFile net fileId content w) as [[[]|e] w']; reflexivity.
  - unfold Validating.updateFile, bind.
    destruct (Validating.addFile net fileId content w) as [[[]|e] w']; reflexivity.
Qed.

(** C8. [finalize] succeeds from every state, and leaves the client
    (server URL, universe, token) and the log of requests and timers as
    they were; it does not even take the network as an argument. *)
Theorem finalize_is_noop :
  (forall w : world Simple.UniverseRAG, Simple.finalize w = (Normal tt, w))
  /\ (forall w : world Validating.UniverseRAG, Validating.finalize w = (Normal tt, w)).
Proof. split; intros w; reflexivity. Qed.

(** C10. In the validating client a [fileId] made of white space only
    (the empty string included) trims to the empty string, and [addFile],
    [updateFile] and [deleteFile] then throw the validation error and
    leave the log, hence the network, untouched. *)
Theorem blank_fileId_rejected (net : network) (fileId content : jsstring)
    (w : world Validating.UniverseRAG)
    (Hblank : forallb is_white_space fileId = true) :
  trim fileId = []
  /\ (exists e, ValidationError e
        /\ Validating.addFile net fileId content w = (Throw e, w)
        /\ Validating.updateFile net fileId content w = (Throw e, w)
        /\ Validating.deleteFile net fileId w = (Throw e, w)).
Proof.
  pose proof (trim_blank fileId Hblank) as Ht.
  split; [exact Ht|].
  exists (new_Error (lit "fileId must be a non-empty string")).
  split; [reflexivity|].
  unfold Validating.updateFile, Validating.addFile, Validating.deleteFile, bind.
  rewrite Ht. cbn. repeat split; reflexivity.
Qed.

Lemma blank_fileId_rejected_witness :
  forallb is_white_space (lit " ") = true
  /\ lit " " <> []
  /\ Validating.addFile net_ok (lit " ") (lit "text") (fresh sample_validating)
     = (Throw (new_Error (lit "fileId must be a non-empty string")), fresh sample_validating)
  /\ Validating.deleteFile net_ok (lit " ") (fresh sample_validating)
     = (Throw (new_Error (lit "fileId must be a non-empty string")), fresh sample_validating).
Proof.
  split; [reflexivity|]. split; [discriminate|].
  destruct (blank_fileId_rejected net_ok (lit " ") (lit "text") (fresh sample_validating)
              eq_refl) as [_ [e [He [Hadd [_ Hdel]]]]].
  rewrite Hadd, Hdel, He. split; reflexivity.
Defined.

(** ** The transport helpers *)

Arguments lit : simpl never.
Arguments decimal : simpl never.

Lemma handleResponse_run (response : Response) (w : world Validating.UniverseRAG) :
  Validating.handleResponse response w = (answer response, w).
Proof.
  unfold Validating.handleResponse, answer, ApiError, api_message, error_message, body_field.
  destruct (ok response); [reflexivity|].
  unfold bind, try_catch, settled, throw, ret.
  destruct (json response) as [v|e]; [|reflexivity].
  destruct v as [| |b|d|s|items|props]; cbn [get_prop truthy]; try reflexivity.
  destruct (truthy (lookup_prop (lit "error") props)).
  { destruct (to_string (lookup_prop (lit "error") props)); reflexivity. }
  destruct (truthy (lookup_prop (lit "description") props)); [|reflexivity].
  destruct (to_string (lookup_prop (lit "description") props)); reflexivity.
Qed.

Section SimpleRequests.

Variable net : network.

(** One call of the simple [fetchApi] is one request, whatever its
    answer. *)
Lemma simple_fetchApi_run (endpoint method : jsstring) (body : Value)
    (w : world Simple.UniverseRAG) :
  let url := shown (Simple.serverUrl (this w)) ++ endpoint in
  let options :=
    {| method := method;
       headers := json_headers (shown (Simple.token (this w)));
       body := if truthy body then Some (stringify body) else None |} in
  Simple.fetchApi net endpoint method body w
  = (match net (log w) url options with
     | Throw e => Throw e
     | Normal response =>
         if ok response then json response
         else Throw (new_Error (lit "API request to " ++ url ++ lit " failed: "
                                ++ statusText response))
     end,
     {| this := this w; log := log w ++ [Fetch url options] |}).
Proof.
  cbv zeta. unfold Simple.fetchApi, bind, self, fetch, throw, settled, shown, json_headers.
  cbn [this log].
  destruct (net (log w) _ _) as [response|e]; [|reflexivity].
  destruct (ok response); reflexivity.
Qed.

End SimpleRequests.

Section ValidatingRequests.

Variable net : network.

(** One call of the validating [fetchApi]: a first attempt, and after any
    throw inside it (the transport's or the one made out of the response)
    a timer of one second and a second attempt. *)
Lemma validating_fetchApi_run (endpoint method : jsstring) (body : Value)
    (w : world Validating.UniverseRAG) :
  let url := Validating.serverUrl (this w) ++ endpoint in
  let options :=
    {| method := method;
       headers := json_headers (shown (Validating.token (this w)));
       body := if truthy body then Some (stringify body) else None |} in
  let r := Fetch url options in
  Validating.fetchApi net endpoint method body w
  = match attempt (net (log w) url options) with
    | Normal v => (Normal v, {| this := this w; log := log w ++ [r] |})
    | Throw _ =>
        (match attempt (net (log w ++ [r; SetTimeout 1000]) url options) with
         | Normal v => Normal v
         | Throw secondError =>
             Throw (new_Error (lit "API request failed after retry: "
                               ++ message secondError))
         end,
         {| this := this w; log := log w ++ [r; SetTimeout 1000; r] |})
    end.
Proof.
  cbv zeta.
  unfold Validating.fetchApi, bind, try_catch, self, fetch, sleep, throw, shown, json_headers.
  cbn [this log].
  destruct (net (log w) _ _) as [response|e]; cbn [attempt].
  - rewrite handleResponse_run. cbn [this log].
    destruct (answer response) as [v|e1]; [reflexivity|].
    rewrite <- !app_assoc. cbn [app].
    destruct (net (log w ++ _) _ _) as [response2|e2]; cbn [attempt this log].
    + rewrite handleResponse_run. destruct (answer response2); reflexivity.
    + reflexivity.
  - cbn [this log]. rewrite <- !app_assoc. cbn [app].
    destruct (net (log w ++ _) _ _) as [response2|e2]; cbn [attempt this log].
    + rewrite handleResponse_run. destruct (answer response2); reflexivity.
    + reflexivity.
Qed.

End ValidatingRequests.

(** ** What is sent *)

Lemma stringify_emit (universe fileId content : jsstring) :
  stringify (VObject [(lit "universe", VString universe);
                      (lit "thing", VObject [(lit "id", VString fileId);
                                             (lit "text", VString content)])])
  = emit_body universe fileId content.
Proof.
  unfold emit_body, quote. cbn [stringify join map quote].
  unfold quote. rewrite <- !app_assoc. reflexivity.
Qed.

Lemma shown_Some (s : jsstring) : shown (Some s) = s.
Proof. reflexivity. Qed.

(** The example of the specification. *)
Example emit_body_example :
  emit_body (lit "myuni") (lit "doc1") (lit "hello world")
  = lit "{" ++ dquote ++ lit "universe" ++ dquote ++ lit ":" ++ dquote ++ lit "myuni" ++ dquote
    ++ lit "," ++ dquote ++ lit "thing" ++ dquote ++ lit ":{"
    ++ dquote ++ lit "id" ++ dquote ++ lit ":" ++ dquote ++ lit "doc1" ++ dquote
    ++ lit "," ++ dquote ++ lit "text" ++ dquote ++ lit ":" ++ dquote ++ lit "hello world"
    ++ dquote ++ lit "}}".
Proof. vm_compute. reflexivity. Qed.

Section SentRequests.

Variable net : network.

Lemma simple_addFile_run (fileId content : jsstring) (w : world Simple.UniverseRAG)
    (serverUrl universe token : jsstring) :
  Simple.serverUrl (this w) = Some serverUrl ->
  Simple.universe (this w) = Some universe ->
  Simple.token (this w) = Some token ->
  exists c,
    Simple.addFile net fileId content w
    = (c, {| this := this w;
             log := log w ++ [emit_request serverUrl universe token fileId content] |}).
Proof.
  intros Hs Hu Ht. unfold Simple.addFile, bind at 1, self. cbn [this].
  unfold bind. rewrite simple_fetchApi_run. cbv zeta.
  rewrite Hs, Hu, Ht, !shown_Some. cbn [of_field truthy].
  rewrite stringify_emit. fold (emit_url serverUrl).
  fold (emit_options universe token fileId content).
  fold (emit_request serverUrl universe token fileId content).
  match goal with
  | |- context [match ?c with Normal _ => _ | Throw _ => _ end] => destruct c as [[]|?]
  end; eexists; reflexivity.
Qed.

Lemma validating_addFile_run (fileId content : jsstring) (w : world Validating.UniverseRAG)
    (token : jsstring) :
  Validating.token (this w) = Some token ->
  trim fileId <> [] ->
  let url := emit_url (Validating.serverUrl (this w)) in
  let options := emit_options (Validating.universe (this w)) token fileId content in
  let r := Fetch url options in
  Validating.addFile net fileId content w
  = match attempt (net (log w) url options) with
    | Normal _ => (Normal tt, {| this := this w; log := log w ++ [r] |})
    | Throw _ =>
        (match attempt (net (log w ++ [r; SetTimeout 1000]) url options) with
         | Normal _ => Normal tt
         | Throw secondError =>
             Throw (new_Error (lit "API request failed after retry: "
                               ++ message secondError))
         end,
         {| this := this w; log := log w ++ [r; SetTimeout 1000; r] |})
    end.
Proof.
  intros Ht Hid. cbv zeta. unfold Validating.addFile.
  apply jsstring_eqb_neq in Hid. rewrite Hid.
  unfold bind at 1, self. cbn [this]. unfold bind.
  rewrite validating_fetchApi_run. cbv zeta.
  rewrite Ht, shown_Some. cbn [truthy]. rewrite stringify_emit.
  fold (emit_url (Validating.serverUrl (this w))).
  fold (emit_options (Validating.universe (this w)) token fileId content).
  destruct (attempt (net (log w) _ _)) as [v|e]; [reflexivity|].
  destruct (attempt (net (log w ++ _) _ _)) as [v2|e2]; reflexivity.
Qed.

Lemma validating_deleteFile_run (fileId : jsstring) (w : world Validating.UniverseRAG) :
  trim fileId <> [] ->
  let r := delete_request (Validating.serverUrl (this w)) (Validating.universe (this w))
             (shown (Validating.token (this w))) fileId in
  exists c,
    Validating.deleteFile net fileId w = (c, {| this := this w; log := log w ++ [r] |})
    \/ Validating.deleteFile net fileId w
       = (c, {| this := this w; log := log w ++ [r; SetTimeout 1000; r] |}).
Proof.
  intros Hid. cbv zeta. unfold Validating.deleteFile.
  apply jsstring_eqb_neq in Hid. rewrite Hid.
  unfold bind at 1, self. cbn [this]. unfold bind.
  rewrite validating_fetchApi_run. cbv zeta. cbn [truthy].
  unfold delete_request.
  destruct (attempt (net (log w) _ _)) as [v|e]; [eexists; left; reflexivity|].
  destruct (attempt (net (log w ++ _) _ _)) as [v2|e2]; eexists; right; reflexivity.
Qed.

Lemma simple_deleteFile_run (fileId : jsstring) (w : world Simple.UniverseRAG) :
  exists c,
    Simple.deleteFile net fileId w
    = (c, {| this := this w;
             log := log w ++ [delete_request (shown (Simple.serverUrl (this w)))
                                (shown (Simple.universe (this w)))
                                (shown (Simple.token (this w))) fileId] |}).
Proof.
  unfold Simple.deleteFile, bind at 1, self. cbn [this].
  unfold bind. rewrite simple_fetchApi_run. cbv zeta. cbn [truthy].
  unfold delete_request, shown.
  match goal with
  | |- context [match ?c with Normal _ => _ | Throw _ => _ end] => destruct c as [[]|?]
  end; eexists; reflexivity.
Qed.

End SentRequests.

(** C5, as amended. Every request [addFile] issues is the [POST] to
    [serverUrl + "/emit"] with the JSON body
    [{"universe":universe,"thing":{"id":fileId,"text":content}}] and the
    headers [Content-Type: application/json] and
    [Authorization: Bearer token]. The simple client issues exactly one,
    whatever the outcome. The validating client, for a [fileId] that is
    not blank, issues exactly one and succeeds when the first attempt is
    answered with a success status and a body that parses; when the first
    attempt meets a transport failure it issues the same request a second
    time after a timer of 1000 ms, and succeeds exactly when that second
    attempt does. Whatever the answers, what the validating [addFile] logs
    starts with that request, and holds nothing after it but that request
    and timers of 1000 ms. *)
Theorem addFile_sends_emit (net : network) (fileId content : jsstring) :
  (forall (w : world Simple.UniverseRAG) (serverUrl universe token : jsstring),
      Simple.serverUrl (this w) = Some serverUrl ->
      Simple.universe (this w) = Some universe ->
      Simple.token (this w) = Some token ->
      exists c,
        Simple.addFile net fileId content w
        = (c, {| this := this w;
                 log := log w ++ [emit_request serverUrl universe token fileId content] |}))
  /\ (forall (w : world Validating.UniverseRAG) (token : jsstring),
      Validating.token (this w) = Some token ->
      trim fileId <> [] ->
      let url := emit_url (Validating.serverUrl (this w)) in
      let options := emit_options (Validating.universe (this w)) token fileId content in
      let r := Fetch url options in
      (forall response v,
          net (log w) url options = Normal response ->
          ok response = true ->
          json response = Normal v ->
          Validating.addFile net fileId content w
          = (Normal tt, {| this := this w; log := log w ++ [r] |}))
      /\ (forall e,
          net (log w) url options = Throw e ->
          exists c,
            Validating.addFile net fileId content w
            = (c, {| this := this w; log := log w ++ [r; SetTimeout 1000; r] |})
            /\ (c = Normal tt
                <-> exists v, attempt (net (log w ++ [r; SetTimeout 1000]) url options)
                              = Normal v))
      /\ (exists c rest,
            Validating.addFile net fileId content w
            = (c, {| this := this w; log := log w ++ r :: rest |})
            /\ forall ev, In ev rest -> ev = r \/ ev = SetTimeout 1000)).
Proof.
  split.
  - intros w serverUrl universe token Hs Hu Ht.
    exact (simple_addFile_run net fileId content w serverUrl universe token Hs Hu Ht).
  - intros w token Ht Hid url options r.
    pose proof (validating_addFile_run net fileId content w token Ht Hid) as Hrun.
    cbv zeta in Hrun. fold url options r in Hrun. split; [|split].
    3:{ rewrite Hrun.
        destruct (attempt (net (log w) url options)) as [v|e].
        - exists (Normal tt), []. split; [reflexivity|]. intros ev [].
        - eexists _, [SetTimeout 1000; r]. split; [reflexivity|].
          intros ev [<-|[<-|[]]]; [right | left]; reflexivity. }
    + intros response v Hnet Hok Hjson. rewrite Hrun, Hnet. cbn [attempt].
      unfold answer. rewrite Hok, Hjson. reflexivity.
    + intros e Hnet. rewrite Hrun, Hnet. cbn [attempt].
      destruct (attempt (net (log w ++ [r; SetTimeout 1000]) url options)) as [v2|e2].
      * eexists. split; [reflexivity|]. split; [intros _; eexists; reflexivity | reflexivity].
      * eexists. split; [reflexivity|].
        split; [discriminate | intros [v Hv]; discriminate].
Qed.

Lemma addFile_sends_emit_witness :
  (exists c,
      Simple.addFile net_ok (lit "doc1") (lit "hello world") (fresh sample_simple)
      = (c, {| this := sample_simple;
               log := [emit_request (lit "https://store.example") (lit "myuni")
                         (lit "secret") (lit "doc1") (lit "hello world")] |}))
  /\ Validating.addFile net_ok (lit "doc1") (lit "hello world") (fresh sample_validating)
     = (Normal tt,
        {| this := sample_validating;
           log := [emit_request (lit "https://store.example") (lit "myuni")
                     (lit "secret") (lit "doc1") (lit "hello world")] |}).
Proof.
  destruct (addFile_sends_emit net_ok (lit "doc1") (lit "hello world")) as [HS HV].
  split.
  - exact (HS (fresh sample_simple) (lit "https://store.example") (lit "myuni")
              (lit "secret") eq_refl eq_refl eq_refl).
  - assert (Hid : trim (lit "doc1") <> []) by (vm_compute; discriminate).
    destruct (HV (fresh sample_validating) (lit "secret") eq_refl Hid) as [Hone _].
    exact (Hone response_200 (VObject []) eq_refl eq_refl eq_refl).
Defined.

(** C5 as worded does not hold: with a network that refuses the first
    connection and answers the second request with 200, [addFile] of the
    validating client succeeds and has issued two requests, not one. *)
Lemma addFile_may_send_twice :
  let run := Validating.addFile net_flaky (lit "doc1") (lit "hello world")
               (fresh sample_validating) in
  fst run = Normal tt
  /\ length (requests (log (snd run))) = 2%nat
  /\ ~ (fst run = Normal tt -> length (requests (log (snd run))) = 1%nat).
Proof.
  cbv zeta. split; [vm_compute; reflexivity|]. split; [vm_compute; reflexivity|].
  intros H. specialize (H ltac:(vm_compute; reflexivity)). vm_compute in H. discriminate.
Qed.

(** C9. [deleteFile] requests [serverUrl + "/thing/" + universe + "/" +
    fileId], the [fileId] copied code unit for code unit: no escaping of
    ["/"], ["?"], ["#"] or anything else. The simple client sends that one
    request for every [fileId]; the validating client sends nothing for a
    blank [fileId], and otherwise sends it once, or twice around its
    timer. *)
Theorem deleteFile_path_is_verbatim (net : network) (fileId : jsstring) :
  (forall w : world Simple.UniverseRAG,
      exists c,
        Simple.deleteFile net fileId w
        = (c, {| this := this w;
                 log := log w ++ [delete_request (shown (Simple.serverUrl (this w)))
                                    (shown (Simple.universe (this w)))
                                    (shown (Simple.token (this w))) fileId] |}))
  /\ (forall w : world Validating.UniverseRAG,
      exists c added,
        Validating.deleteFile net fileId w
        = (c, {| this := this w; log := log w ++ added |})
        /\ let r := delete_request (Validating.serverUrl (this w))
                      (Validating.universe (this w))
                      (shown (Validating.token (this w))) fileId in
           if jsstring_eqb (trim fileId) [] then added = []
           else added = [r] \/ added = [r; SetTimeout 1000; r]).
Proof.
  split; intros w.
  - apply simple_deleteFile_run.
  - destruct (jsstring_eqb (trim fileId) []) eqn:Hid.
    + exists (Throw (new_Error (lit "fileId must be a non-empty string"))), [].
      split; [|reflexivity].
      unfold Validating.deleteFile. rewrite Hid, app_nil_r. destruct w; reflexivity.
    + apply jsstring_eqb_neq in Hid.
      destruct (validating_deleteFile_run net fileId w Hid) as [c [H|H]].
      * exists c, [delete_request (Validating.serverUrl (this w))
                     (Validating.universe (this w))
                     (shown (Validating.token (this w))) fileId].
        split; [exact H | left; reflexivity].
      * exists c, [delete_request (Validating.serverUrl (this w))
                     (Validating.universe (this w))
                     (shown (Validating.token (this w))) fileId;
                   SetTimeout 1000;
                   delete_request (Validating.serverUrl (this w))
                     (Validating.universe (this w))
                     (shown (Validating.token (this w))) fileId].
        split; [exact H | right; reflexivity].
Qed.

(** A [fileId] with a slash, a query and a fragment lands in the URL as
    it is. *)
Example deleteFile_unescaped :
  snd (Simple.deleteFile net_ok (lit "a/../b?x=1#y") (fresh sample_simple))
  = {| this := sample_simple;
       log := [Fetch (lit "https://store.example/thing/myuni/a/../b?x=1#y")
                 {| method := lit "DELETE";
                    headers := json_headers (lit "secret");
                    body := None |}] |}.
Proof. vm_compute. reflexivity. Qed.

(** ** The retry *)

Section Retry.

Variable net : network.

(** A transport failure of the first attempt is followed by a timer of
    one second and one more attempt; a failure of that one is wrapped. *)
Lemma transport_failure_is_retried_once (endpoint method : jsstring) (body : Value)
    (w : world Validating.UniverseRAG) (e : Error) :
  let url := Validating.serverUrl (this w) ++ endpoint in
  let options :=
    {| method := method;
       headers := json_headers (shown (Validating.token (this w)));
       body := if truthy body then Some (stringify body) else None |} in
  let r := Fetch url options in
  net (log w) url options = Throw e ->
  Validating.fetchApi net endpoint method body w
  = (match attempt (net (log w ++ [r; SetTimeout 1000]) url options) with
     | Normal v => Normal v
     | Throw secondError =>
         Throw (new_Error (lit "API request failed after retry: " ++ message secondError))
     end,
     {| this := this w; log := log w ++ [r; SetTimeout 1000; r] |}).
Proof.
  cbv zeta. intros Hnet. rewrite validating_fetchApi_run. cbv zeta.
  rewrite Hnet. reflexivity.
Qed.

(** So is a response with a status outside 200-299: the error made out of
    it is thrown inside the same [try]. *)
Lemma error_status_is_retried (endpoint method : jsstring) (body : Value)
    (w : world Validating.UniverseRAG) (response : Response) :
  let url := Validating.serverUrl (this w) ++ endpoint in
  let options :=
    {| method := method;
       headers := json_headers (shown (Validating.token (this w)));
       body := if truthy body then Some (stringify body) else None |} in
  let r := Fetch url options in
  net (log w) url options = Normal response ->
  ok response = false ->
  snd (Validating.fetchApi net endpoint method body w)
  = {| this := this w; log := log w ++ [r; SetTimeout 1000; r] |}.
Proof.
  cbv zeta. intros Hnet Hok. rewrite validating_fetchApi_run. cbv zeta.
  rewrite Hnet. cbn [attempt]. unfold answer. rewrite Hok.
  destruct (to_string (error_message response)); reflexivity.
Qed.

End Retry.

(** C1, at the input where the code departs from it. The server answers
    every request with 404 and the body [{"error":"not found"}]:
    [deleteFile("x")] of the validating client sends the request, sets
    the timer and sends the request again, and the error it throws wraps
    the error of the second response. When the second request is answered
    with 200, the same call succeeds although it received the 404. *)
Theorem http_error_is_retried :
  let r := delete_request (lit "https://store.example") (lit "myuni") (lit "secret")
             (lit "x") in
  Validating.deleteFile net_404 (lit "x") (fresh sample_validating)
  = (Throw (new_Error
              (lit "API request failed after retry: API request failed: 404 - not found")),
     {| this := sample_validating; log := [r; SetTimeout 1000; r] |})
  /\ Validating.deleteFile net_404_then_ok (lit "x") (fresh sample_validating)
     = (Normal tt, {| this := sample_validating; log := [r; SetTimeout 1000; r] |}).
Proof. cbv zeta. split; vm_compute; reflexivity. Qed.

(** ** Responses *)


(** ** Configuration and credentials *)

Lemma missing_true_iff (o : gmap jsstring jsstring) (key : jsstring) :
  missing o key = true <-> o !! key = None \/ o !! key = Some [].
Proof.
  unfold missing. destruct (o !! key) as [s|].
  - rewrite jsstring_eqb_eq. split.
    + intros ->. right. reflexivity.
    + intros [H|H]; [discriminate | congruence].
  - split; auto.
Qed.

Lemma missing_false (o : gmap jsstring jsstring) (key s : jsstring) :
  o !! key = Some s -> s <> [] -> missing o key = false.
Proof.
  intros H Hs. unfold missing. rewrite H. apply jsstring_eqb_neq. exact Hs.
Qed.

Lemma word_char_matches (c : N) : class_matches word_char c = is_word c.
Proof.
  unfold class_matches, word_char, is_word, is_alnum, in_range, range_of, underscore.
  cbn -[N.leb N.eqb]. rewrite orb_false_r, !orb_assoc. f_equal.
  change (hd 0 (lit "_")) with 95.
  destruct (N.eqb_spec c 95) as [->|Hne]; [reflexivity|].
  destruct (N.leb_spec 95 c), (N.leb_spec c 95); try reflexivity; lia.
Qed.

Lemma test_word_char (u : jsstring) :
  test_anchored_plus word_char u = negb (jsstring_eqb u []) && forallb is_word u.
Proof.
  destruct u as [|c rest]; [reflexivity|].
  unfold test_anchored_plus.
  replace (jsstring_eqb (c :: rest) []) with false
    by (symmetry; apply jsstring_eqb_neq; discriminate).
  cbn [negb andb]. generalize (c :: rest). intros l.
  induction l as [|x l IH]; [reflexivity|].
  cbn [forallb]. rewrite word_char_matches, IH. reflexivity.
Qed.

Lemma config_invalid_not_wellformed (URL_parses : jsstring -> bool)
    (config : gmap jsstring jsstring) :
  config_invalid URL_parses config = true -> config_wellformed URL_parses config = false.
Proof.
  unfold config_invalid, config_wellformed.
  destruct (config !! lit "serverUrl") as [s|]; [|reflexivity].
  destruct (URL_parses s); [|reflexivity]. cbn [negb orb andb].
  destruct (config !! lit "universe") as [u|]; [|reflexivity].
  destruct (forallb is_word u); [discriminate|].
  intros _. apply andb_false_r.
Qed.

Lemma simple_init_config_error (credentials config : gmap jsstring jsstring)
    (w : world Simple.UniverseRAG) :
  missing config (lit "serverUrl") || missing config (lit "universe") = true ->
  exists e, ConfigError e /\ Simple.init credentials config w = (Throw e, w).
Proof.
  intros H. unfold Simple.init.
  destruct (missing config (lit "serverUrl")).
  - eexists. split; [|reflexivity]. left. reflexivity.
  - cbn [orb] in H. rewrite H.
    eexists. split; [|reflexivity]. right. left. reflexivity.
Qed.

Lemma simple_init_run (credentials config : gmap jsstring jsstring)
    (w : world Simple.UniverseRAG) (s u : jsstring) :
  config !! lit "serverUrl" = Some s -> s <> [] ->
  config !! lit "universe" = Some u -> u <> [] ->
  Simple.init credentials config w
  = if missing credentials (Simple.generateCredentialName s) then
      (Throw (new_Error (lit "Credential " ++ dquote ++ Simple.generateCredentialName s
                         ++ dquote ++ lit " is required")), w)
    else
      (Normal tt,
       {| this := {| Simple.serverUrl := Some s;
                     Simple.universe := Some u;
                     Simple.token := credentials !! Simple.generateCredentialName s;
                     Simple.config := Simple.config (this w) |};
          log := log w |}).
Proof.
  intros Hs Hs' Hu Hu'. unfold Simple.init.
  rewrite (missing_false config _ s Hs Hs'), (missing_false config _ u Hu Hu').
  rewrite Hs, Hu. unfold as_string, default. cbn [from_option id].
  destruct (missing credentials (Simple.generateCredentialName s)); reflexivity.
Qed.

Lemma validating_init_run (credentials : gmap jsstring jsstring)
    (w : world Validating.UniverseRAG) :
  let credentialName := Validating.generateCredentialName (Validating.serverUrl (this w)) in
  Validating.init credentials w
  = if missing credentials credentialName then
      (Throw (new_Error (lit "Credential " ++ dquote ++ credentialName ++ dquote
                         ++ lit " is required")), w)
    else
      (Normal tt,
       {| this := {| Validating.serverUrl := Validating.serverUrl (this w);
                     Validating.universe := Validating.universe (this w);
                     Validating.token := credentials !! credentialName |};
          log := log w |}).
Proof.
  cbv zeta. unfold Validating.init, bind, self.
  destruct (missing credentials _); reflexivity.
Qed.

(** C4, as amended. The validating client checks its configuration in the
    constructor: a configuration whose server URL parses and whose
    universe name matches [^[A-Za-z0-9_]+$] is accepted and stored, and
    every other one (so every one in which the server URL is missing or
    does not parse, or the universe name is missing or has a character
    outside [[A-Za-z0-9_]]) is refused with a configuration error. The
    simple client checks in [init], and only that both values are there
    and not empty: it refuses a configuration lacking one of them with a
    configuration error, and accepts any other once the credential is
    there. *)
Theorem configuration_is_checked (URL_parses : jsstring -> bool)
    (config : gmap jsstring jsstring)
    (Hempty : URL_parses [] = false) :
  (config_wellformed URL_parses config = true ->
     Validating.constructor URL_parses config
     = Normal {| Validating.serverUrl := as_string (config !! lit "serverUrl");
                 Validating.universe := as_string (config !! lit "universe");
                 Validating.token := None |})
  /\ (config_wellformed URL_parses config = false ->
      exists e, ConfigError e /\ Validating.constructor URL_parses config = Throw e)
  /\ (config_invalid URL_parses config = true ->
      exists e, ConfigError e /\ Validating.constructor URL_parses config = Throw e)
  /\ (forall credentials (w : world Simple.UniverseRAG),
      missing config (lit "serverUrl") || missing config (lit "universe") = true ->
      exists e, ConfigError e /\ Simple.init credentials config w = (Throw e, w))
  /\ (forall credentials (w : world Simple.UniverseRAG) (s u t : jsstring),
      config !! lit "serverUrl" = Some s -> s <> [] ->
      config !! lit "universe" = Some u -> u <> [] ->
      credentials !! Simple.generateCredentialName s = Some t -> t <> [] ->
      Simple.init credentials config w
      = (Normal tt,
         {| this := {| Simple.serverUrl := Some s;
                       Simple.universe := Some u;
                       Simple.token := Some t;
                       Simple.config := Simple.config (this w) |};
            log := log w |})).
Proof.
  assert (Hbad : config_wellformed URL_parses config = false ->
                 exists e, ConfigError e /\ Validating.constructor URL_parses config = Throw e).
  { unfold config_wellformed, Validating.constructor, missing.
    destruct (config !! lit "serverUrl") as [s|].
    2:{ intros _. eexists. split; [|reflexivity]. left. reflexivity. }
    destruct (jsstring_eqb s []) eqn:Hs.
    { intros _. eexists. split; [|reflexivity]. left. reflexivity. }
    destruct (config !! lit "universe") as [u|].
    2:{ intros _. eexists. split; [|reflexivity]. right. left. reflexivity. }
    destruct (jsstring_eqb u []) eqn:Hu.
    { intros _. eexists. split; [|reflexivity]. right. left. reflexivity. }
    unfold as_string, default. cbn [from_option id].
    rewrite test_word_char, Hu. cbn [negb andb].
    destruct (URL_parses s); cbn [negb andb].
    - destruct (forallb is_word u); [discriminate|]. intros _.
      eexists. split; [|reflexivity]. right. right. right. left. reflexivity.
    - intros _. eexists. split; [|reflexivity]. right. right. left. reflexivity. }
  split; [|split; [exact Hbad|split; [|split]]].
  - unfold config_wellformed, Validating.constructor, missing.
    destruct (config !! lit "serverUrl") as [s|]; [|discriminate].
    destruct (config !! lit "universe") as [u|]; [|rewrite andb_false_r; discriminate].
    intros H. apply andb_true_iff in H as [Hurl Hu].
    unfold as_string, default. cbn [from_option id].
    rewrite test_word_char, Hu, Hurl.
    apply andb_true_iff in Hu as [Hne _]. apply negb_true_iff in Hne. rewrite Hne.
    destruct (jsstring_eqb s []) eqn:Hs; [|reflexivity].
    apply jsstring_eqb_eq in Hs. subst s. congruence.
  - intros H. apply Hbad, config_invalid_not_wellformed, H.
  - intros credentials w H. apply simple_init_config_error, H.
  - intros credentials w s u t Hs Hs' Hu Hu' Ht Ht'.
    rewrite (simple_init_run credentials config w s u Hs Hs' Hu Hu').
    rewrite (missing_false credentials _ t Ht Ht'), Ht. reflexivity.
Qed.

Lemma configuration_is_checked_witness :
  sample_URL_parses [] = false
  /\ Validating.constructor sample_URL_parses (sample_config "https://store.example" "myuni")
     = Normal {| Validating.serverUrl := lit "https://store.example";
                 Validating.universe := lit "myuni";
                 Validating.token := None |}
  /\ (exists e, ConfigError e
                /\ Validating.constructor sample_URL_parses
                     (sample_config "https://store.example" "bad name!") = Throw e).
Proof.
  split; [reflexivity|]. split.
  - destruct (configuration_is_checked sample_URL_parses
                (sample_config "https://store.example" "myuni") eq_refl) as [Hgood _].
    rewrite Hgood by (vm_compute; reflexivity). vm_compute. reflexivity.
  - destruct (configuration_is_checked sample_URL_parses
                (sample_config "https://store.example" "bad name!") eq_refl)
      as [_ [_ [Hinvalid _]]].
    apply Hinvalid. vm_compute. reflexivity.
Defined.

(** C4 as worded does not hold: the simple client is constructed and
    initialised with a universe name that has a space and an exclamation
    mark in it. *)
Lemma simple_init_accepts_bad_universe :
  let config := sample_config "https://store.example" "bad name!" in
  let run := Simple.init sample_credentials config (fresh (Simple.constructor config)) in
  forallb is_word (lit "bad name!") = false
  /\ run = (Normal tt,
            fresh {| Simple.serverUrl := Some (lit "https://store.example");
                     Simple.universe := Some (lit "bad name!");
                     Simple.token := Some (lit "secret");
                     Simple.config := config |})
  /\ ~ (exists e, fst run = Throw e).
Proof.
  cbv zeta.
  assert (H : fst (Simple.init sample_credentials
                     (sample_config "https://store.example" "bad name!")
                     (fresh (Simple.constructor
                               (sample_config "https://store.example" "bad name!"))))
              = Normal tt) by (vm_compute; reflexivity).
  split; [reflexivity|]. split.
  - vm_compute. reflexivity.
  - intros [e He]. rewrite H in He. discriminate.
Qed.

(** [init] of the simple client either throws and hands the world back,
    or assigns the three fields from its arguments alone. *)
Lemma simple_init_cases (credentials config : gmap jsstring jsstring)
    (w : world Simple.UniverseRAG) :
  (exists e, forall w' : world Simple.UniverseRAG,
      Simple.init credentials config w' = (Throw e, w'))
  \/ (forall w' : world Simple.UniverseRAG,
      Simple.init credentials config w'
      = (Normal tt,
         {| this := {| Simple.serverUrl := config !! lit "serverUrl";
                       Simple.universe := config !! lit "universe";
                       Simple.token :=
                         credentials !! Simple.generateCredentialName
                                          (as_string (config !! lit "serverUrl"));
                       Simple.config := Simple.config (this w') |};
            log := log w' |})).
Proof.
  unfold Simple.init.
  destruct (missing config (lit "serverUrl")); [left; eexists; reflexivity|].
  destruct (missing config (lit "universe")); [left; eexists; reflexivity|].
  destruct (missing credentials _); [left; eexists; reflexivity|].
  right. reflexivity.
Qed.

Lemma validating_init_cases (credentials : gmap jsstring jsstring)
    (w : world Validating.UniverseRAG) :
  (exists e, Validating.init credentials w = (Throw e, w))
  \/ Validating.init credentials w
     = (Normal tt,
        {| this := Validating.set_token
                     (credentials !! Validating.generateCredentialName
                                       (Validating.serverUrl (this w)))
                     (this w);
           log := log w |}).
Proof.
  rewrite validating_init_run. cbv zeta.
  destruct (missing credentials _); [left; eexists; reflexivity | right; reflexivity].
Qed.

(** A successful [init] leaves the same world whether or not another
    [init] ran before it. *)
Lemma simple_init_overwrites (earlier config' credentials config : gmap jsstring jsstring)
    (w : world Simple.UniverseRAG) :
  fst (Simple.init credentials config w) = Normal tt ->
  Simple.init credentials config (snd (Simple.init earlier config' w))
  = Simple.init credentials config w.
Proof.
  intros Hok.
  destruct (simple_init_cases credentials config w) as [[e He]|Hrun].
  { rewrite He in Hok. discriminate. }
  rewrite !Hrun.
  destruct (simple_init_cases earlier config' w) as [[e He]|Hrun'].
  - rewrite He. reflexivity.
  - rewrite Hrun'. reflexivity.
Qed.

Lemma validating_init_overwrites (earlier credentials : gmap jsstring jsstring)
    (w : world Validating.UniverseRAG) :
  fst (Validating.init credentials w) = Normal tt ->
  Validating.init credentials (snd (Validating.init earlier w))
  = Validating.init credentials w.
Proof.
  intros Hok.
  destruct (validating_init_cases earlier w) as [[e He]|Hrun'].
  { rewrite He. reflexivity. }
  rewrite Hrun'. cbn [snd].
  rewrite !validating_init_run in *. cbv zeta in *.
  cbn [this log Validating.set_token Validating.serverUrl Validating.universe].
  destruct (missing credentials _); [discriminate | reflexivity].
Qed.

(** C7. When the credential named after the server URL is absent or
    empty, [init] throws the credential error and leaves the client,
    token included, as it was; when it is there and not empty, [init]
    succeeds and the client then holds the server URL, the universe name
    and that token. A successful [init] after an earlier [init] leaves
    what it would have left without the earlier one, the state of the
    latest values, and [init] run twice on the same arguments leaves what
    one run leaves. For the simple client, which reads the configuration
    in [init], the first two parts are for a configuration that passes its
    two checks. *)
Theorem init_requires_credential (credentials : gmap jsstring jsstring) :
  (forall (config : gmap jsstring jsstring) (w : world Simple.UniverseRAG) (s u : jsstring),
      config !! lit "serverUrl" = Some s -> s <> [] ->
      config !! lit "universe" = Some u -> u <> [] ->
      let credentialName := Simple.generateCredentialName s in
      (credentials !! credentialName = None \/ credentials !! credentialName = Some [] ->
       exists e, CredentialError credentialName e
                 /\ Simple.init credentials config w = (Throw e, w))
      /\ (forall t, credentials !! credentialName = Some t -> t <> [] ->
          Simple.init credentials config w
          = (Normal tt,
             {| this := {| Simple.serverUrl := Some s;
                           Simple.universe := Some u;
                           Simple.token := Some t;
                           Simple.config := Simple.config (this w) |};
                log := log w |})))
  /\ (forall (w : world Validating.UniverseRAG),
      let credentialName :=
        Validating.generateCredentialName (Validating.serverUrl (this w)) in
      (credentials !! credentialName = None \/ credentials !! credentialName = Some [] ->
       exists e, CredentialError credentialName e
                 /\ Validating.init credentials w = (Throw e, w))
      /\ (forall t, credentials !! credentialName = Some t -> t <> [] ->
          Validating.init credentials w
          = (Normal tt,
             {| this := {| Validating.serverUrl := Validating.serverUrl (this w);
                           Validating.universe := Validating.universe (this w);
                           Validating.token := Some t |};
                log := log w |})))
  /\ (forall (earlier config' config : gmap jsstring jsstring) (w : world Simple.UniverseRAG),
      fst (Simple.init credentials config w) = Normal tt ->
      Simple.init credentials config (snd (Simple.init earlier config' w))
      = Simple.init credentials config w)
  /\ (forall (earlier : gmap jsstring jsstring) (w : world Validating.UniverseRAG),
      fst (Validating.init credentials w) = Normal tt ->
      Validating.init credentials (snd (Validating.init earlier w))
      = Validating.init credentials w)
  /\ (forall (config : gmap jsstring jsstring) (w : world Simple.UniverseRAG),
      Simple.init credentials config (snd (Simple.init credentials config w))
      = Simple.init credentials config w)
  /\ (forall w : world Validating.UniverseRAG,
      Validating.init credentials (snd (Validating.init credentials w))
      = Validating.init credentials w).
Proof.
  split; [|split; [|split; [|split; [|split]]]].
  - intros config w s u Hs Hs' Hu Hu' credentialName.
    rewrite (simple_init_run credentials config w s u Hs Hs' Hu Hu').
    fold credentialName. split.
    + intros H. apply missing_true_iff in H. rewrite H.
      eexists. split; reflexivity.
    + intros t Ht Ht'. rewrite (missing_false credentials _ t Ht Ht'), Ht. reflexivity.
  - intros w credentialName. rewrite validating_init_run. cbv zeta.
    fold credentialName. split.
    + intros H. apply missing_true_iff in H. rewrite H.
      eexists. split; reflexivity.
    + intros t Ht Ht'. rewrite (missing_false credentials _ t Ht Ht'), Ht. reflexivity.
  - intros earlier config' config w. apply simple_init_overwrites.
  - intros earlier w. apply validating_init_overwrites.
  - intros config w.
    destruct (simple_init_cases credentials config w) as [[e He]|Hrun].
    + rewrite (He w). cbn [snd]. apply He.
    + apply simple_init_overwrites. rewrite Hrun. reflexivity.
  - intros w.
    destruct (validating_init_cases credentials w) as [[e He]|Hrun].
    + rewrite He. cbn [snd]. exact He.
    + apply validating_init_overwrites. rewrite Hrun. reflexivity.
Qed.

Lemma init_requires_credential_witness :
  Simple.init sample_credentials (sample_config "https://store.example" "myuni")
    (fresh (Simple.constructor (sample_config "https://store.example" "myuni")))
  = (Normal tt,
     fresh {| Simple.serverUrl := Some (lit "https://store.example");
              Simple.universe := Some (lit "myuni");
              Simple.token := Some (lit "secret");
              Simple.config := sample_config "https://store.example" "myuni" |})
  /\ (exists e,
        CredentialError (lit "universe_token_https___store_example") e
        /\ Validating.init ∅ (fresh sample_validating) = (Throw e, fresh sample_validating)).
Proof.
  split.
  - destruct (init_requires_credential sample_credentials) as [HS _].
    assert (Hs : sample_config "https://store.example" "myuni" !! lit "serverUrl"
                 = Some (lit "https://store.example")) by (vm_compute; reflexivity).
    assert (Hu : sample_config "https://store.example" "myuni" !! lit "universe"
                 = Some (lit "myuni")) by (vm_compute; reflexivity).
    assert (Ht : sample_credentials
                   !! Simple.generateCredentialName (lit "https://store.example")
                 = Some (lit "secret")) by (vm_compute; reflexivity).
    assert (Hs' : lit "https://store.example" <> []) by (vm_compute; discriminate).
    assert (Hu' : lit "myuni" <> []) by (vm_compute; discriminate).
    assert (Ht' : lit "secret" <> []) by (vm_compute; discriminate).
    exact (proj2 (HS _ (fresh (Simple.constructor
                                 (sample_config "https://store.example" "myuni")))
                    _ _ Hs Hs' Hu Hu') _ Ht Ht').
  - destruct (init_requires_credential ∅) as [_ [HV _]].
    destruct (HV (fresh sample_validating)) as [Hbad _].
    apply Hbad. left. vm_compute. reflexivity.
Defined.

(** * Further properties *)

(** ** Operations in terms of the transport helper *)

Section Operations.

Variable net : network.

Lemma simple_addFile_void (fileId content : jsstring) (w : world Simple.UniverseRAG) :
  Simple.addFile net fileId content w
  = (void (fst (Simple.fetchApi net (lit "/emit") (lit "POST")
                  (VObject [(lit "universe", of_field (Simple.universe (this w)));
                            (lit "thing", VObject [(lit "id", VString fileId);
                                                   (lit "text", VString content)])]) w)),
     snd (Simple.fetchApi net (lit "/emit") (lit "POST")
            (VObject [(lit "universe", of_field (Simple.universe (this w)));
                      (lit "thing", VObject [(lit "id", VString fileId);
                                             (lit "text", VString content)])]) w)).
Proof.
  unfold Simple.addFile, bind at 1, self. cbn [this]. unfold bind.
  destruct (Simple.fetchApi net _ _ _ w) as [[v|e] w']; reflexivity.
Qed.

Lemma simple_deleteFile_void (fileId : jsstring) (w : world Simple.UniverseRAG) :
  Simple.deleteFile net fileId w
  = (void (fst (Simple.fetchApi net
                  (lit "/thing/" ++ shown (Simple.universe (this w)) ++ lit "/" ++ fileId)
                  (lit "DELETE") VUndefined w)),
     snd (Simple.fetchApi net
            (lit "/thing/" ++ shown (Simple.universe (this w)) ++ lit "/" ++ fileId)
            (lit "DELETE") VUndefined w)).
Proof.
  unfold Simple.deleteFile, bind at 1, self, shown. cbn [this]. unfold bind.
  destruct (Simple.fetchApi net _ _ _ w) as [[v|e] w']; reflexivity.
Qed.

Lemma simple_deleteAllFiles_void (w : world Simple.UniverseRAG) :
  Simple.deleteAllFiles net w
  = (void (fst (Simple.fetchApi net (lit "/universe/" ++ shown (Simple.universe (this w)))
                  (lit "DELETE") VUndefined w)),
     snd (Simple.fetchApi net (lit "/universe/" ++ shown (Simple.universe (this w)))
            (lit "DELETE") VUndefined w)).
Proof.
  unfold Simple.deleteAllFiles, bind at 1, self, shown. cbn [this]. unfold bind.
  destruct (Simple.fetchApi net _ _ _ w) as [[v|e] w']; reflexivity.
Qed.

Lemma validating_addFile_void (fileId content : jsstring) (w : world Validating.UniverseRAG) :
  trim fileId <> [] ->
  Validating.addFile net fileId content w
  = (void (fst (Validating.fetchApi net (lit "/emit") (lit "POST")
                  (VObject [(lit "universe", VString (Validating.universe (this w)));
                            (lit "thing", VObject [(lit "id", VString fileId);
                                                   (lit "text", VString content)])]) w)),
     snd (Validating.fetchApi net (lit "/emit") (lit "POST")
            (VObject [(lit "universe", VString (Validating.universe (this w)));
                      (lit "thing", VObject [(lit "id", VString fileId);
                                             (lit "text", VString content)])]) w)).
Proof.
  intros Hid. unfold Validating.addFile.
  apply jsstring_eqb_neq in Hid. rewrite Hid.
  unfold bind at 1, self. cbn [this]. unfold bind.
  destruct (Validating.fetchApi net _ _ _ w) as [[v|e] w']; reflexivity.
Qed.

Lemma validating_deleteFile_void (fileId : jsstring) (w : world Validating.UniverseRAG) :
  trim fileId <> [] ->
  Validating.deleteFile net fileId w
  = (void (fst (Validating.fetchApi net
                  (lit "/thing/" ++ Validating.universe (this w) ++ lit "/" ++ fileId)
                  (lit "DELETE") VUndefined w)),
     snd (Validating.fetchApi net
            (lit "/thing/" ++ Validating.universe (this w) ++ lit "/" ++ fileId)
            (lit "DELETE") VUndefined w)).
Proof.
  intros Hid. unfold Validating.deleteFile.
  apply jsstring_eqb_neq in Hid. rewrite Hid.
  unfold bind at 1, self. cbn [this]. unfold bind.
  destruct (Validating.fetchApi net _ _ _ w) as [[v|e] w']; reflexivity.
Qed.

Lemma validating_deleteAllFiles_void (w : world Validating.UniverseRAG) :
  Validating.deleteAllFiles net w
  = (void (fst (Validating.fetchApi net (lit "/universe/" ++ Validating.universe (this w))
                  (lit "DELETE") VUndefined w)),
     snd (Validating.fetchApi net (lit "/universe/" ++ Validating.universe (this w))
            (lit "DELETE") VUndefined w)).
Proof.
  unfold Validating.deleteAllFiles, bind at 1, self. cbn [this]. unfold bind.
  destruct (Validating.fetchApi net _ _ _ w) as [[v|e] w']; reflexivity.
Qed.

Lemma validating_blank_throws (fileId content : jsstring) (w : world Validating.UniverseRAG) :
  trim fileId = [] ->
  Validating.addFile net fileId content w
  = (Throw (new_Error (lit "fileId must be a non-empty string")), w)
  /\ Validating.deleteFile net fileId w
     = (Throw (new_Error (lit "fileId must be a non-empty string")), w).
Proof.
  intros Hid. unfold Validating.addFile, Validating.deleteFile. rewrite Hid.
  split; reflexivity.
Qed.

(** The log after the validating [fetchApi]: one request more, or the
    request, the timer and the request again. *)
Lemma validating_fetchApi_log (endpoint method : jsstring) (body : Value)
    (w : world Validating.UniverseRAG) :
  let r := Fetch (Validating.serverUrl (this w) ++ endpoint)
             {| method := method;
                headers := json_headers (shown (Validating.token (this w)));
                body := if truthy body then Some (stringify body) else None |} in
  snd (Validating.fetchApi net endpoint method body w)
  = {| this := this w; log := log w ++ [r] |}
  \/ snd (Validating.fetchApi net endpoint method body w)
     = {| this := this w; log := log w ++ [r; SetTimeout 1000; r] |}.
Proof.
  cbv zeta. rewrite validating_fetchApi_run. cbv zeta.
  destruct (attempt (net (log w) _ _)); [left | right]; reflexivity.
Qed.

Lemma simple_fetchApi_log (endpoint method : jsstring) (body : Value)
    (w : world Simple.UniverseRAG) :
  snd (Simple.fetchApi net endpoint method body w)
  = {| this := this w;
       log := log w ++ [Fetch (shown (Simple.serverUrl (this w)) ++ endpoint)
                          {| method := method;
                             headers := json_headers (shown (Simple.token (this w)));
                             body := if truthy body then Some (stringify body)
                                     else None |}] |}.
Proof. rewrite simple_fetchApi_run. reflexivity. Qed.

End Operations.

(** ** Responses *)



(** ** deleteAllFiles *)

(** X1. [deleteAllFiles] asks for [DELETE serverUrl + "/universe/" +
    universe], with the two headers and no body. The simple client sends
    it once and returns what that one answer comes to. The validating
    client returns after one request when the first attempt succeeds;
    otherwise it sets the timer, sends the same request again and returns
    what the second attempt comes to, a failure wrapped. *)
Theorem deleteAllFiles_request (net : network) :
  (forall w : world Simple.UniverseRAG,
      let url := shown (Simple.serverUrl (this w))
                 ++ lit "/universe/" ++ shown (Simple.universe (this w)) in
      let options :=
        {| method := lit "DELETE";
           headers := json_headers (shown (Simple.token (this w)));
           body := None |} in
      Simple.deleteAllFiles net w
      = (void (match net (log w) url options with
               | Throw e => Throw e
               | Normal response =>
                   if ok response then json response
                   else Throw (new_Error (lit "API request to " ++ url ++ lit " failed: "
                                          ++ statusText response))
               end),
         {| this := this w;
            log := log w ++ [delete_all_request (shown (Simple.serverUrl (this w)))
                               (shown (Simple.universe (this w)))
                               (shown (Simple.token (this w)))] |}))
  /\ (forall w : world Validating.UniverseRAG,
      let url := Validating.serverUrl (this w)
                 ++ lit "/universe/" ++ Validating.universe (this w) in
      let options :=
        {| method := lit "DELETE";
           headers := json_headers (shown (Validating.token (this w)));
           body := None |} in
      let r := delete_all_request (Validating.serverUrl (this w))
                 (Validating.universe (this w)) (shown (Validating.token (this w))) in
      Validating.deleteAllFiles net w
      = match attempt (net (log w) url options) with
        | Normal _ => (Normal tt, {| this := this w; log := log w ++ [r] |})
        | Throw _ =>
            (match attempt (net (log w ++ [r; SetTimeout 1000]) url options) with
             | Normal _ => Normal tt
             | Throw secondError => Throw (after_retry secondError)
             end,
             {| this := this w; log := log w ++ [r; SetTimeout 1000; r] |})
        end).
Proof.
  split; intros w; cbv zeta.
  - rewrite simple_deleteAllFiles_void, simple_fetchApi_run. cbv zeta.
    cbn [fst snd truthy]. unfold delete_all_request.
    rewrite <- ?app_assoc. reflexivity.
  - rewrite validating_deleteAllFiles_void, validating_fetchApi_run. cbv zeta.
    cbn [truthy]. unfold delete_all_request, after_retry.
    rewrite <- ?app_assoc.
    destruct (attempt (net (log w) _ _)) as [v|e]; [reflexivity|].
    cbn [fst snd].
    destruct (attempt (net (log w ++ _) _ _)) as [v2|e2]; reflexivity.
Qed.

(** ** What the operations leave alone *)

(** X2. No operation that talks to the server assigns a field of the
    client, and none removes or rewrites what is already in the log: after
    [addFile], [updateFile], [deleteFile] or [deleteAllFiles], of either
    client, the client is the one before and the log is the old log with
    the new events at its end. *)
Theorem operations_extend_the_log (net : network) :
  (forall fileId content (w : world Simple.UniverseRAG),
      extends w (snd (Simple.addFile net fileId content w))
      /\ extends w (snd (Simple.updateFile net fileId content w))
      /\ extends w (snd (Simple.deleteFile net fileId w))
      /\ extends w (snd (Simple.deleteAllFiles net w)))
  /\ (forall fileId content (w : world Validating.UniverseRAG),
      extends w (snd (Validating.addFile net fileId content w))
      /\ extends w (snd (Validating.updateFile net fileId content w))
      /\ extends w (snd (Validating.deleteFile net fileId w))
      /\ extends w (snd (Validating.deleteAllFiles net w))).
Proof.
  assert (HS : forall endpoint method body (w : world Simple.UniverseRAG),
             extends w (snd (Simple.fetchApi net endpoint method body w))).
  { intros endpoint meth payload w. rewrite simple_fetchApi_log.
    split; [reflexivity | eexists; reflexivity]. }
  assert (HV : forall endpoint method body (w : world Validating.UniverseRAG),
             extends w (snd (Validating.fetchApi net endpoint method body w))).
  { intros endpoint meth payload w.
    destruct (validating_fetchApi_log net endpoint meth payload w) as [H|H];
      rewrite H; (split; [reflexivity | eexists; reflexivity]). }
  assert (Hself : forall C (w : world C), extends w w).
  { intros C w. split; [reflexivity | exists []; symmetry; apply app_nil_r]. }
  assert (HSadd : forall fileId content (w : world Simple.UniverseRAG),
             extends w (snd (Simple.addFile net fileId content w))).
  { intros fileId content w. rewrite simple_addFile_void. cbn [snd]. apply HS. }
  assert (HVadd : forall fileId content (w : world Validating.UniverseRAG),
             extends w (snd (Validating.addFile net fileId content w))).
  { intros fileId content w. destruct (jsstring_eqb (trim fileId) []) eqn:Hid.
    - apply jsstring_eqb_eq in Hid.
      rewrite (proj1 (validating_blank_throws net fileId content w Hid)). apply Hself.
    - apply jsstring_eqb_neq in Hid.
      rewrite (validating_addFile_void net fileId content w Hid). cbn [snd]. apply HV. }
  split; intros fileId content w; (split; [|split; [|split]]).
  - apply HSadd.
  - unfold Simple.updateFile, bind. specialize (HSadd fileId content w).
    destruct (Simple.addFile net fileId content w) as [[[]|e] w']; exact HSadd.
  - rewrite simple_deleteFile_void. cbn [snd]. apply HS.
  - rewrite simple_deleteAllFiles_void. cbn [snd]. apply HS.
  - apply HVadd.
  - unfold Validating.updateFile, bind. specialize (HVadd fileId content w).
    destruct (Validating.addFile net fileId content w) as [[[]|e] w']; exact HVadd.
  - destruct (jsstring_eqb (trim fileId) []) eqn:Hid.
    + apply jsstring_eqb_eq in Hid.
      rewrite (proj2 (validating_blank_throws net fileId content w Hid)). apply Hself.
    + apply jsstring_eqb_neq in Hid.
      rewrite (validating_deleteFile_void net fileId w Hid). cbn [snd]. apply HV.
  - rewrite validating_deleteAllFiles_void. cbn [snd]. apply HV.
Qed.

(** ** Which errors reach the caller *)

Lemma validating_fetchApi_throw (net : network) (endpoint method : jsstring) (body : Value)
    (w : world Validating.UniverseRAG) (e : Error) :
  fst (Validating.fetchApi net endpoint method body w) = Throw e ->
  failed_twice net w (Validating.serverUrl (this w) ++ endpoint)
    {| method := method;
       headers := json_headers (shown (Validating.token (this w)));
       body := if truthy body then Some (stringify body) else None |}
    e (snd (Validating.fetchApi net endpoint method body w)).
Proof.
  rewrite validating_fetchApi_run. cbv zeta. unfold failed_twice.
  destruct (attempt (net (log w) _ _)) as [v|e1]; [discriminate|].
  cbn [fst snd].
  destruct (attempt (net (log w ++ _) _ _)) as [v2|e2]; [discriminate|].
  intros H. injection H as <-. exists e1, e2. repeat split.
Qed.

(** X3. An error thrown by an operation of the validating client is the
    validation error, thrown for a blank [fileId] before anything is
    sent, or it was thrown after the operation's request was sent, failed,
    and was sent a second time after the timer and failed again; its
    message is then ["API request failed after retry: "] followed by the
    message of that second failure. No error of the transport and no
    error made from a response reaches the caller as it is. *)
Theorem validating_errors_are_wrapped (net : network) (fileId content : jsstring)
    (w : world Validating.UniverseRAG) (e : Error) :
  let emit : RequestInit :=
    {| method := lit "POST";
       headers := json_headers (shown (Validating.token (this w)));
       body := Some (emit_body (Validating.universe (this w)) fileId content) |} in
  let delete : RequestInit :=
    {| method := lit "DELETE";
       headers := json_headers (shown (Validating.token (this w)));
       body := None |} in
  (fst (Validating.addFile net fileId content w) = Throw e ->
     (trim fileId = [] /\ ValidationError e
      /\ snd (Validating.addFile net fileId content w) = w)
     \/ (trim fileId <> []
         /\ failed_twice net w (emit_url (Validating.serverUrl (this w))) emit e
              (snd (Validating.addFile net fileId content w))))
  /\ (fst (Validating.updateFile net fileId content w) = Throw e ->
     (trim fileId = [] /\ ValidationError e
      /\ snd (Validating.updateFile net fileId content w) = w)
     \/ (trim fileId <> []
         /\ failed_twice net w (emit_url (Validating.serverUrl (this w))) emit e
              (snd (Validating.updateFile net fileId content w))))
  /\ (fst (Validating.deleteFile net fileId w) = Throw e ->
     (trim fileId = [] /\ ValidationError e
      /\ snd (Validating.deleteFile net fileId w) = w)
     \/ (trim fileId <> []
         /\ failed_twice net w
              (Validating.serverUrl (this w) ++ lit "/thing/"
               ++ Validating.universe (this w) ++ lit "/" ++ fileId)
              delete e (snd (Validating.deleteFile net fileId w))))
  /\ (fst (Validating.deleteAllFiles net w) = Throw e ->
     failed_twice net w
       (Validating.serverUrl (this w) ++ lit "/universe/" ++ Validating.universe (this w))
       delete e (snd (Validating.deleteAllFiles net w))).
Proof.
  cbv zeta.
  assert (Hvoid : forall c : completion Value, void c = Throw e -> c = Throw e).
  { intros [v|e']; cbn [void]; intros H; [discriminate H | congruence]. }
  assert (Hadd : fst (Validating.addFile net fileId content w) = Throw e ->
     (trim fileId = [] /\ ValidationError e
      /\ snd (Validating.addFile net fileId content w) = w)
     \/ (trim fileId <> []
         /\ failed_twice net w (emit_url (Validating.serverUrl (this w)))
              {| method := lit "POST";
                 headers := json_headers (shown (Validating.token (this w)));
                 body := Some (emit_body (Validating.universe (this w)) fileId content) |}
              e (snd (Validating.addFile net fileId content w)))).
  { destruct (jsstring_eqb (trim fileId) []) eqn:Hid.
    - apply jsstring_eqb_eq in Hid.
      rewrite (proj1 (validating_blank_throws net fileId content w Hid)).
      cbn [fst snd]. intros H. injection H as <-. left. repeat split. exact Hid.
    - apply jsstring_eqb_neq in Hid.
      rewrite (validating_addFile_void net fileId content w Hid). cbn [fst snd].
      intros H. right. split; [exact Hid|]. apply Hvoid in H.
      pose proof (validating_fetchApi_throw net _ _ _ w e H) as Hf.
      cbn [truthy] in Hf. rewrite stringify_emit in Hf. exact Hf. }
  split; [exact Hadd|]. split; [|split].
  - unfold Validating.updateFile, bind.
    destruct (Validating.addFile net fileId content w) as [[[]|e'] w'];
      cbn [fst snd] in *; [discriminate | exact Hadd].
  - destruct (jsstring_eqb (trim fileId) []) eqn:Hid.
    + apply jsstring_eqb_eq in Hid.
      rewrite (proj2 (validating_blank_throws net fileId content w Hid)).
      cbn [fst snd]. intros H. injection H as <-. left. repeat split. exact Hid.
    + apply jsstring_eqb_neq in Hid.
      rewrite (validating_deleteFile_void net fileId w Hid). cbn [fst snd].
      intros H. right. split; [exact Hid|]. apply Hvoid in H.
      pose proof (validating_fetchApi_throw net _ _ _ w e H) as Hf.
      cbn [truthy] in Hf. rewrite <- ?app_assoc in Hf. exact Hf.
  - rewrite validating_deleteAllFiles_void. cbn [fst snd].
    intros H. apply Hvoid in H.
    pose proof (validating_fetchApi_throw net _ _ _ w e H) as Hf.
    cbn [truthy] in Hf. rewrite <- ?app_assoc in Hf. exact Hf.
Qed.

Lemma validating_errors_are_wrapped_witness :
  failed_twice net_down (fresh sample_validating)
    (lit "https://store.example" ++ lit "/universe/" ++ lit "myuni")
    {| method := lit "DELETE"; headers := json_headers (lit "secret"); body := None |}
    (new_Error (lit "API request failed after retry: fetch failed"))
    (snd (Validating.deleteAllFiles net_down (fresh sample_validating))).
Proof.
  destruct (validating_errors_are_wrapped net_down (lit "doc1") (lit "text")
              (fresh sample_validating)
              (new_Error (lit "API request failed after retry: fetch failed")))
    as [_ [_ [_ H]]].
  apply H. vm_compute. reflexivity.
Defined.

(** X4. The simple client adds nothing to a failure and does not try
    again: when the connection fails, or the answer has a success status
    and a body that [response.json()] rejects, each operation throws that
    very error after its one request. *)
Theorem simple_failures_surface_unchanged (net : network) (fileId content : jsstring)
    (w : world Simple.UniverseRAG) (e : Error)
    (Hfails : forall url options,
        net (log w) url options = Throw e
        \/ exists response,
             net (log w) url options = Normal response
             /\ ok response = true /\ json response = Throw e) :
  (exists url options,
      Simple.addFile net fileId content w
      = (Throw e, {| this := this w; log := log w ++ [Fetch url options] |}))
  /\ (exists url options,
      Simple.updateFile net fileId content w
      = (Throw e, {| this := this w; log := log w ++ [Fetch url options] |}))
  /\ (exists url options,
      Simple.deleteFile net fileId w
      = (Throw e, {| this := this w; log := log w ++ [Fetch url options] |}))
  /\ (exists url options,
      Simple.deleteAllFiles net w
      = (Throw e, {| this := this w; log := log w ++ [Fetch url options] |})).
Proof.
  assert (H : forall endpoint meth payload,
             exists url options,
               Simple.fetchApi net endpoint meth payload w
               = (Throw e, {| this := this w; log := log w ++ [Fetch url options] |})).
  { intros endpoint meth payload. rewrite simple_fetchApi_run. cbv zeta.
    eexists _, _.
    match goal with
    | |- context [net (log w) ?u ?o] =>
        destruct (Hfails u o) as [Hn | [response [Hn [Hok Hjson]]]]; rewrite Hn
    end.
    - reflexivity.
    - rewrite Hok, Hjson. reflexivity. }
  assert (Hadd : exists url options,
      Simple.addFile net fileId content w
      = (Throw e, {| this := this w; log := log w ++ [Fetch url options] |})).
  { rewrite simple_addFile_void.
    match goal with
    | |- context [Simple.fetchApi net ?a ?b ?c w] =>
        destruct (H a b c) as [url [options Hrun]]; rewrite Hrun
    end.
    exists url, options. reflexivity. }
  split; [exact Hadd|]. split; [|split].
  - destruct Hadd as [url [options Hrun]]. exists url, options.
    unfold Simple.updateFile, bind. rewrite Hrun. reflexivity.
  - rewrite simple_deleteFile_void.
    match goal with
    | |- context [Simple.fetchApi net ?a ?b ?c w] =>
        destruct (H a b c) as [url [options Hrun]]; rewrite Hrun
    end.
    exists url, options. reflexivity.
  - rewrite simple_deleteAllFiles_void.
    match goal with
    | |- context [Simple.fetchApi net ?a ?b ?c w] =>
        destruct (H a b c) as [url [options Hrun]]; rewrite Hrun
    end.
    exists url, options. reflexivity.
Qed.

Lemma simple_failures_surface_unchanged_witness :
  exists url options,
    Simple.deleteAllFiles net_down (fresh sample_simple)
    = (Throw connection_refused,
       {| this := sample_simple; log := [Fetch url options] |}).
Proof.
  destruct (simple_failures_surface_unchanged net_down (lit "doc1") (lit "text")
              (fresh sample_simple) connection_refused
              (fun _ _ => or_introl eq_refl))
    as [_ [_ [_ H]]].
  exact H.
Defined.

(** X5. In the validating client a response with a success status whose
    body [response.json()] rejects (an empty body, say) counts as a failed
    attempt: the request is sent again after the timer, and if the second
    answer is of the same kind the call throws that parse error, wrapped,
    after two requests. *)
Theorem unparsable_success_is_retried (net : network) (endpoint method : jsstring)
    (body : Value) (w : world Validating.UniverseRAG)
    (response : Response) (e : Error) :
  let url := Validating.serverUrl (this w) ++ endpoint in
  let options :=
    {| method := method;
       headers := json_headers (shown (Validating.token (this w)));
       body := if truthy body then Some (stringify body) else None |} in
  let r := Fetch url options in
  net (log w) url options = Normal response ->
  ok response = true ->
  json response = Throw e ->
  snd (Validating.fetchApi net endpoint method body w)
  = {| this := this w; log := log w ++ [r; SetTimeout 1000; r] |}
  /\ (forall response2 e2,
        net (log w ++ [r; SetTimeout 1000]) url options = Normal response2 ->
        ok response2 = true ->
        json response2 = Throw e2 ->
        fst (Validating.fetchApi net endpoint method body w) = Throw (after_retry e2)).
Proof.
  cbv zeta. intros Hnet Hok Hjson.
  rewrite validating_fetchApi_run. cbv zeta.
  rewrite Hnet. cbn [attempt]. unfold answer. rewrite Hok, Hjson.
  split; [reflexivity|].
  intros response2 e2 Hnet2 Hok2 Hjson2. cbn [fst].
  rewrite Hnet2. cbn [attempt]. unfold answer. rewrite Hok2, Hjson2. reflexivity.
Qed.

Lemma unparsable_success_is_retried_witness :
  let no_content : Response :=
    {| status := 204; statusText := lit "No Content";
       json := Throw {| name := NSyntaxError; message := lit "Unexpected end of JSON input" |} |} in
  let r := delete_all_request (lit "https://store.example") (lit "myuni") (lit "secret") in
  snd (Validating.fetchApi (fun _ _ _ => Normal no_content)
         (lit "/universe/myuni") (lit "DELETE") VUndefined (fresh sample_validating))
  = {| this := sample_validating; log := [r; SetTimeout 1000; r] |}.
Proof.
  cbv zeta.
  exact (proj1 (unparsable_success_is_retried
                  (fun _ _ _ =>
                     Normal {| status := 204; statusText := lit "No Content";
                               json := Throw {| name := NSyntaxError;
                                                message := lit "Unexpected end of JSON input" |} |})
                  (lit "/universe/myuni") (lit "DELETE") VUndefined (fresh sample_validating)
                  _ _ eq_refl eq_refl eq_refl)).
Defined.

(** ** The message made from a response *)

(** X6. [handleResponse] falls back on the status text whenever the body
    of a failed response gives it nothing to say: the body does not
    parse; it parses to [null] (reading a property of it throws, and the
    throw is swallowed); it parses to a number, a string, a boolean or an
    array; or it is an object whose [error] and [description] are both
    absent or falsy. *)
Theorem handleResponse_falls_back_on_status_text (response : Response)
    (w : world Validating.UniverseRAG)
    (Hfailed : ok response = false)
    (Hsilent :
       match json response with
       | Throw _ => True
       | Normal (VObject props) =>
           truthy (lookup_prop (lit "error") props) = false
           /\ truthy (lookup_prop (lit "description") props) = false
       | Normal _ => True
       end) :
  Validating.handleResponse response w
  = (Throw (new_Error (lit "API request failed: " ++ decimal (status response)
                       ++ lit " - " ++ statusText response)), w).
Proof.
  unfold Validating.handleResponse. rewrite Hfailed.
  unfold bind, try_catch, settled, throw, ret.
  destruct (json response) as [v|e]; [|reflexivity].
  destruct v as [| |b|d|s|items|props]; cbn [get_prop]; try reflexivity.
  destruct Hsilent as [He Hd]. rewrite He, Hd. reflexivity.
Qed.

Lemma handleResponse_falls_back_on_status_text_witness :
  Validating.handleResponse
    {| status := 502; statusText := lit "Bad Gateway"; json := Normal VNull |}
    (fresh sample_validating)
  = (Throw (new_Error (lit "API request failed: 502 - Bad Gateway")),
     fresh sample_validating).
Proof.
  rewrite (handleResponse_falls_back_on_status_text
             {| status := 502; statusText := lit "Bad Gateway"; json := Normal VNull |}
             (fresh sample_validating) eq_refl I).
  vm_compute. reflexivity.
Defined.

(** X7. In the body of a failed response a truthy [error] is the message
    whatever [description] says, and [description] is used only when
    [error] is absent or falsy (the empty string, [null], [false], zero).
    A string is used as it is. An object prints as [[object Object]],
    unless it has a [toString] member of its own: then the conversion to a
    string throws, and [handleResponse] throws that [TypeError] in place
    of the error for the response. *)
Theorem handleResponse_prefers_error (response : Response)
    (w : world Validating.UniverseRAG) (props : list (jsstring * Value))
    (Hfailed : ok response = false)
    (Hbody : json response = Normal (VObject props)) :
  let thrown (chosen : Value) : completion Value :=
    match to_string chosen with
    | Normal msg =>
        Throw (new_Error (lit "API request failed: " ++ decimal (status response)
                          ++ lit " - " ++ msg))
    | Throw e => Throw e
    end in
  (truthy (lookup_prop (lit "error") props) = true ->
     Validating.handleResponse response w
     = (thrown (lookup_prop (lit "error") props), w))
  /\ (truthy (lookup_prop (lit "error") props) = false ->
      truthy (lookup_prop (lit "description") props) = true ->
      Validating.handleResponse response w
      = (thrown (lookup_prop (lit "description") props), w))
  /\ (forall s, s <> [] ->
      thrown (VString s)
      = Throw (new_Error (lit "API request failed: " ++ decimal (status response)
                          ++ lit " - " ++ s)))
  /\ (forall members,
      thrown (VObject members)
      = if has_prop (lit "toString") members then Throw cannot_convert
        else Throw (new_Error (lit "API request failed: " ++ decimal (status response)
                               ++ lit " - [object Object]"))).
Proof.
  cbv zeta. unfold Validating.handleResponse. rewrite Hfailed, Hbody.
  unfold bind, try_catch, settled, throw, ret. cbn [get_prop].
  split; [|split; [|split]].
  - intros He. rewrite He.
    destruct (to_string (lookup_prop (lit "error") props)); reflexivity.
  - intros He Hd. rewrite He, Hd.
    destruct (to_string (lookup_prop (lit "description") props)); reflexivity.
  - intros s _. reflexivity.
  - intros members. cbn [to_string].
    destruct (has_prop (lit "toString") members); reflexivity.
Qed.

Lemma handleResponse_prefers_error_witness :
  Validating.handleResponse
    {| status := 409; statusText := lit "Conflict";
       json := Normal (VObject [(lit "error", VString []);
                                (lit "description", VArray [VString (lit "a"); VNull;
                                                            VNumber (lit "7")])]) |}
    (fresh sample_validating)
  = (Throw (new_Error (lit "API request failed: 409 - a,,7")), fresh sample_validating)
  /\ Validating.handleResponse
       {| status := 404; statusText := lit "Not Found";
          json := Normal (VObject [(lit "error",
                                    VObject [(lit "toString", VNumber (lit "1"))])]) |}
       (fresh sample_validating)
     = (Throw cannot_convert, fresh sample_validating).
Proof.
  split.
  - destruct (handleResponse_prefers_error
                {| status := 409; statusText := lit "Conflict";
                   json := Normal (VObject [(lit "error", VString []);
                                            (lit "description",
                                             VArray [VString (lit "a"); VNull;
                                                     VNumber (lit "7")])]) |}
                (fresh sample_validating) _ eq_refl eq_refl) as [_ [H _]].
    rewrite H by (vm_compute; reflexivity). vm_compute. reflexivity.
  - destruct (handleResponse_prefers_error
                {| status := 404; statusText := lit "Not Found";
                   json := Normal (VObject [(lit "error",
                                             VObject [(lit "toString",
                                                       VNumber (lit "1"))])]) |}
                (fresh sample_validating) _ eq_refl eq_refl) as [H _].
    rewrite H by (vm_compute; reflexivity). vm_compute. reflexivity.
Defined.

(** ** Which [fileId]s the validating client refuses *)

(** X8. The validating [addFile] and [deleteFile] refuse a [fileId]
    exactly when it is blank. For a [fileId] with at least one code unit
    that is not white space each of them sends its request: the log grows
    by that request, alone or followed by the timer and the same request
    again, so neither comes back with the untouched world that a refusal
    leaves. *)
Theorem fileId_refused_iff_blank (net : network) (fileId content : jsstring)
    (w : world Validating.UniverseRAG) :
  let emit :=
    Fetch (emit_url (Validating.serverUrl (this w)))
      {| method := lit "POST";
         headers := json_headers (shown (Validating.token (this w)));
         body := Some (emit_body (Validating.universe (this w)) fileId content) |} in
  let delete :=
    delete_request (Validating.serverUrl (this w)) (Validating.universe (this w))
      (shown (Validating.token (this w))) fileId in
  (Validating.addFile net fileId content w
   = (Throw (new_Error (lit "fileId must be a non-empty string")), w)
   <-> forallb is_white_space fileId = true)
  /\ (Validating.deleteFile net fileId w
      = (Throw (new_Error (lit "fileId must be a non-empty string")), w)
      <-> forallb is_white_space fileId = true)
  /\ (forallb is_white_space fileId = false ->
      exists rest,
        snd (Validating.addFile net fileId content w)
        = {| this := this w; log := log w ++ emit :: rest |}
        /\ (rest = [] \/ rest = [SetTimeout 1000; emit]))
  /\ (forallb is_white_space fileId = false ->
      exists rest,
        snd (Validating.deleteFile net fileId w)
        = {| this := this w; log := log w ++ delete :: rest |}
        /\ (rest = [] \/ rest = [SetTimeout 1000; delete])).
Proof.
  cbv zeta.
  assert (Hgrow : forall endpoint meth payload,
             log (snd (Validating.fetchApi net endpoint meth payload w)) <> log w).
  { intros endpoint meth payload Heq.
    apply (f_equal (@length event)) in Heq.
    destruct (validating_fetchApi_log net endpoint meth payload w) as [H|H];
      rewrite H in Heq; cbn [log] in Heq; rewrite length_app in Heq; cbn in Heq; lia. }
  assert (Hnb : forallb is_white_space fileId = false -> trim fileId <> []).
  { intros Hf Ht. apply trim_nil_iff in Ht. congruence. }
  split; [|split; [|split]].
  - rewrite <- trim_nil_iff. split.
    + intros Hrun. destruct (jsstring_eqb (trim fileId) []) eqn:Hid.
      * apply jsstring_eqb_eq. exact Hid.
      * exfalso. apply jsstring_eqb_neq in Hid.
        rewrite (validating_addFile_void net fileId content w Hid) in Hrun.
        injection Hrun as _ Hw. eapply Hgrow. rewrite Hw. reflexivity.
    + intros Hid. apply (validating_blank_throws net fileId content w Hid).
  - rewrite <- trim_nil_iff. split.
    + intros Hrun. destruct (jsstring_eqb (trim fileId) []) eqn:Hid.
      * apply jsstring_eqb_eq. exact Hid.
      * exfalso. apply jsstring_eqb_neq in Hid.
        rewrite (validating_deleteFile_void net fileId w Hid) in Hrun.
        injection Hrun as _ Hw. eapply Hgrow. rewrite Hw. reflexivity.
    + intros Hid. apply (validating_blank_throws net fileId content w Hid).
  - intros Hf. apply Hnb in Hf.
    rewrite (validating_addFile_void net fileId content w Hf). cbn [snd].
    match goal with
    | |- context [Validating.fetchApi net ?a ?b ?c w] =>
        destruct (validating_fetchApi_log net a b c w) as [H|H]; rewrite H
    end; cbn [truthy]; rewrite stringify_emit; unfold emit_url.
    + exists []. split; [reflexivity | left; reflexivity].
    + eexists. split; [reflexivity | right; reflexivity].
  - intros Hf. apply Hnb in Hf.
    rewrite (validating_deleteFile_void net fileId w Hf). cbn [snd].
    match goal with
    | |- context [Validating.fetchApi net ?a ?b ?c w] =>
        destruct (validating_fetchApi_log net a b c w) as [H|H]; rewrite H
    end; cbn [truthy]; unfold delete_request.
    + exists []. split; [reflexivity | left; reflexivity].
    + eexists. split; [reflexivity | right; reflexivity].
Qed.

Lemma fileId_refused_iff_blank_witness :
  exists rest,
    snd (Validating.deleteFile net_ok (lit " a ") (fresh sample_validating))
    = {| this := sample_validating;
         log := [] ++ delete_request (lit "https://store.example") (lit "myuni")
                        (lit "secret") (lit " a ") :: rest |}
    /\ (rest = []
        \/ rest = [SetTimeout 1000;
                   delete_request (lit "https://store.example") (lit "myuni")
                     (lit "secret") (lit " a ")]).
Proof.
  destruct (fileId_refused_iff_blank net_ok (lit " a ") (lit "text")
              (fresh sample_validating)) as [_ [_ [_ H]]].
  apply H. vm_compute. reflexivity.
Defined.

(** ** Invariants of the two clients *)

Lemma missing_false_inv (o : gmap jsstring jsstring) (key : jsstring) :
  missing o key = false -> exists s, o !! key = Some s /\ s <> [].
Proof.
  unfold missing. destruct (o !! key) as [s|]; [|discriminate].
  intros H. apply jsstring_eqb_neq in H. exists s. split; [reflexivity | exact H].
Qed.

Lemma rounds_app (a b : list event) : rounds a -> rounds b -> rounds (a ++ b).
Proof.
  intros Ha Hb. induction Ha as [|url options rest Hrest IH|url options rest Hrest IH].
  - exact Hb.
  - cbn [app]. apply rounds_once, IH.
  - cbn [app]. apply rounds_twice, IH.
Qed.

Section ValidatingInvariant.

Variable URL_parses : jsstring -> bool.
Variable net : network.

Lemma validating_fetchApi_keeps (endpoint method : jsstring) (body : Value)
    (w : world Validating.UniverseRAG) :
  validating_invariant URL_parses w ->
  validating_invariant URL_parses (snd (Validating.fetchApi net endpoint method body w)).
Proof.
  intros (Hurl & Hne & Huni & Htok & Hlog).
  destruct (validating_fetchApi_log net endpoint method body w) as [H|H]; rewrite H;
    (repeat split; cbn [this log]; try assumption;
     apply rounds_app; [exact Hlog|]).
  - apply rounds_once, rounds_nil.
  - apply rounds_twice, rounds_nil.
Qed.

Lemma validating_addFile_keeps (fileId content : jsstring)
    (w : world Validating.UniverseRAG) :
  validating_invariant URL_parses w ->
  validating_invariant URL_parses (snd (Validating.addFile net fileId content w)).
Proof.
  intros Hinv. destruct (jsstring_eqb (trim fileId) []) eqn:Hid.
  - apply jsstring_eqb_eq in Hid.
    rewrite (proj1 (validating_blank_throws net fileId content w Hid)). exact Hinv.
  - apply jsstring_eqb_neq in Hid.
    rewrite (validating_addFile_void net fileId content w Hid). cbn [snd].
    apply validating_fetchApi_keeps, Hinv.
Qed.

(** X9. Whatever the validating client has been through since its
    constructor returned, its server URL is one the URL parser accepts and
    is not empty, its universe name matches [^[a-zA-Z0-9_]+$], its token
    is unset or a string that is not empty, and its log is a sequence of
    rounds: a request, or a request, a timer of exactly 1000 ms and the
    same request again. *)
Theorem validating_client_invariant (w : world Validating.UniverseRAG)
    (Hreach : validating_reachable URL_parses net w) :
  URL_parses (Validating.serverUrl (this w)) = true
  /\ Validating.serverUrl (this w) <> []
  /\ test_anchored_plus word_char (Validating.universe (this w)) = true
  /\ match Validating.token (this w) with
     | None => True
     | Some t => t <> []
     end
  /\ rounds (log w).
Proof.
  change (validating_invariant URL_parses w).
  induction Hreach as [config c Hc|credentials w Hw IH|fileId content w Hw IH
                       |fileId content w Hw IH|fileId w Hw IH|w Hw IH|w Hw IH].
  - unfold Validating.constructor in Hc.
    destruct (missing config (lit "serverUrl")) eqn:Hs; [discriminate|].
    destruct (missing config (lit "universe")) eqn:Hu; [discriminate|].
    destruct (URL_parses (as_string (config !! lit "serverUrl"))) eqn:Hp;
      [|discriminate]. cbn [negb] in Hc.
    destruct (test_anchored_plus word_char (as_string (config !! lit "universe"))) eqn:Ht;
      [|discriminate]. cbn [negb] in Hc.
    injection Hc as <-.
    apply missing_false_inv in Hs as [s [Hs Hs']].
    repeat split; cbn [fresh this log Validating.serverUrl Validating.universe
                        Validating.token]; try assumption.
    + rewrite Hs. exact Hs'.
    + constructor.
  - destruct IH as (Hurl & Hne & Huni & Htok & Hlog).
    rewrite validating_init_run. cbv zeta.
    destruct (missing credentials _) eqn:Hm.
    + cbn [snd]. repeat split; assumption.
    + apply missing_false_inv in Hm as [t [Ht Ht']].
      cbn [snd]. repeat split; cbn [this log Validating.serverUrl Validating.universe
                                     Validating.token]; try assumption.
      rewrite Ht. exact Ht'.
  - apply validating_addFile_keeps, IH.
  - unfold Validating.updateFile, bind.
    pose proof (validating_addFile_keeps fileId content w IH) as H.
    destruct (Validating.addFile net fileId content w) as [[[]|e] w']; exact H.
  - destruct (jsstring_eqb (trim fileId) []) eqn:Hid.
    + apply jsstring_eqb_eq in Hid.
      rewrite (proj2 (validating_blank_throws net fileId [] w Hid)). exact IH.
    + apply jsstring_eqb_neq in Hid.
      rewrite (validating_deleteFile_void net fileId w Hid). cbn [snd].
      apply validating_fetchApi_keeps, IH.
  - rewrite validating_deleteAllFiles_void. cbn [snd].
    apply validating_fetchApi_keeps, IH.
  - exact IH.
Qed.

End ValidatingInvariant.

Lemma validating_client_invariant_witness :
  let c0 := {| Validating.serverUrl := lit "https://store.example";
               Validating.universe := lit "myuni";
               Validating.token := None |} in
  let w := snd (Validating.addFile net_flaky (lit "doc1") (lit "text")
                  (snd (Validating.init sample_credentials (fresh c0)))) in
  Validating.token (this w) = Some (lit "secret")
  /\ rounds (log w).
Proof.
  cbv zeta.
  assert (Hc : Validating.constructor sample_URL_parses
                 (sample_config "https://store.example" "myuni")
               = Normal {| Validating.serverUrl := lit "https://store.example";
                           Validating.universe := lit "myuni";
                           Validating.token := None |})
    by (vm_compute; reflexivity).
  split; [vm_compute; reflexivity|].
  exact (proj2 (proj2 (proj2 (proj2
           (validating_client_invariant sample_URL_parses net_flaky _
              (vr_addFile _ _ (lit "doc1") (lit "text") _
                 (vr_init _ _ sample_credentials _
                    (vr_constructor _ _ _ _ Hc)))))))).
Defined.

Section SimpleInvariant.

Variable net : network.
Variable config0 : gmap jsstring jsstring.

Lemma simple_fetchApi_keeps (endpoint method : jsstring) (body : Value)
    (w : world Simple.UniverseRAG) :
  simple_invariant config0 w ->
  simple_invariant config0 (snd (Simple.fetchApi net endpoint method body w)).
Proof.
  intros (Hcfg & Hfields & Hlog). rewrite simple_fetchApi_log.
  repeat split; cbn [this log]; try assumption.
  apply Forall_app. split; [exact Hlog|]. repeat constructor.
Qed.

Lemma simple_addFile_keeps (fileId content : jsstring) (w : world Simple.UniverseRAG) :
  simple_invariant config0 w ->
  simple_invariant config0 (snd (Simple.addFile net fileId content w)).
Proof.
  intros Hinv. rewrite simple_addFile_void. cbn [snd].
  apply simple_fetchApi_keeps, Hinv.
Qed.

(** X10. Whatever the simple client has been through since it was
    constructed, it still holds the configuration it was constructed
    with; its server URL, universe name and token are all unset, or all
    set to strings that are not empty; and its log holds requests only:
    the simple client never sets a timer. *)
Theorem simple_client_invariant (w : world Simple.UniverseRAG)
    (Hreach : simple_reachable net config0 w) :
  Simple.config (this w) = config0
  /\ simple_fields_together (this w)
  /\ Forall (fun ev => is_fetch ev = true) (log w).
Proof.
  change (simple_invariant config0 w).
  induction Hreach as [|credentials config w Hw IH|fileId content w Hw IH
                       |fileId content w Hw IH|fileId w Hw IH|w Hw IH|w Hw IH].
  - repeat split; [left; repeat split | constructor].
  - destruct IH as (Hcfg & Hfields & Hlog). unfold Simple.init.
    destruct (missing config (lit "serverUrl")) eqn:Hs; [repeat split; assumption|].
    destruct (missing config (lit "universe")) eqn:Hu; [repeat split; assumption|].
    destruct (missing credentials _) eqn:Ht; [repeat split; assumption|].
    apply missing_false_inv in Hs as [s [Hs Hs']].
    apply missing_false_inv in Hu as [u [Hu Hu']].
    apply missing_false_inv in Ht as [t [Ht Ht']].
    unfold bind, assign. cbn [snd this log Simple.set_serverUrl Simple.set_universe
                               Simple.set_token Simple.serverUrl Simple.universe
                               Simple.token Simple.config].
    split; [exact Hcfg|]. split; [|exact Hlog].
    right. exists s, u, t.
    cbn [Simple.serverUrl Simple.universe Simple.token].
    repeat split; assumption.
  - apply simple_addFile_keeps, IH.
  - unfold Simple.updateFile, bind.
    pose proof (simple_addFile_keeps fileId content w IH) as H.
    destruct (Simple.addFile net fileId content w) as [[[]|e] w']; exact H.
  - rewrite simple_deleteFile_void. cbn [snd]. apply simple_fetchApi_keeps, IH.
  - rewrite simple_deleteAllFiles_void. cbn [snd]. apply simple_fetchApi_keeps, IH.
  - exact IH.
Qed.

End SimpleInvariant.

Lemma simple_client_invariant_witness :
  let config := sample_config "https://store.example" "myuni" in
  let w := snd (Simple.deleteFile net_down (lit "doc1")
                  (snd (Simple.init sample_credentials config
                          (fresh (Simple.constructor config))))) in
  Simple.config (this w) = config
  /\ simple_fields_together (this w)
  /\ Forall (fun ev => is_fetch ev = true) (log w).
Proof.
  cbv zeta.
  exact (simple_client_invariant net_down _ _
           (sr_deleteFile _ _ (lit "doc1") _
              (sr_init _ _ sample_credentials _ _ (sr_constructor _ _)))).
Defined.

(** ** requiredCredentials and init *)

(** X11. In the validating client [requiredCredentials] names exactly one
    credential, and that name is the one [init] looks up: [init] succeeds
    exactly when the credentials hold a string that is not empty under
    every name [requiredCredentials] returned, and it then stores that
    string as the token. Any other entry of the credentials is ignored. *)
Theorem requiredCredentials_is_what_init_needs (credentials : gmap jsstring jsstring)
    (w : world Validating.UniverseRAG) :
  size (Validating.requiredCredentials (this w)) = 1%nat
  /\ (fst (Validating.init credentials w) = Normal tt
      <-> forall k d, Validating.requiredCredentials (this w) !! k = Some d ->
                      exists t, credentials !! k = Some t /\ t <> [])
  /\ (forall k d t,
        Validating.requiredCredentials (this w) !! k = Some d ->
        credentials !! k = Some t -> t <> [] ->
        Validating.init credentials w
        = (Normal tt, {| this := Validating.set_token (Some t) (this w); log := log w |})).
Proof.
  unfold Validating.requiredCredentials.
  set (credentialName := Validating.generateCredentialName (Validating.serverUrl (this w))).
  set (description := lit _ ++ _).
  assert (Hone : forall k d,
             ({[credentialName := description]} : gmap jsstring jsstring) !! k = Some d
             <-> k = credentialName /\ d = description).
  { intros k d. rewrite lookup_singleton_Some. intuition congruence. }
  split; [apply map_size_singleton|]. split.
  - rewrite validating_init_run. cbv zeta. fold credentialName. split.
    + intros Hok k d Hk. apply Hone in Hk as [-> _].
      destruct (missing credentials credentialName) eqn:Hm; [discriminate|].
      apply missing_false_inv, Hm.
    + intros Hall. destruct (Hall credentialName description) as [t [Ht Ht']].
      { apply Hone. split; reflexivity. }
      rewrite (missing_false credentials _ t Ht Ht'). reflexivity.
  - intros k d t Hk Ht Ht'. apply Hone in Hk as [-> _].
    rewrite validating_init_run. cbv zeta. fold credentialName.
    rewrite (missing_false credentials _ t Ht Ht'), Ht. reflexivity.
Qed.

Lemma requiredCredentials_is_what_init_needs_witness :
  Validating.init sample_credentials
    (fresh {| Validating.serverUrl := lit "https://store.example";
              Validating.universe := lit "myuni";
              Validating.token := None |})
  = (Normal tt, fresh sample_validating).
Proof.
  destruct (requiredCredentials_is_what_init_needs sample_credentials
              (fresh {| Validating.serverUrl := lit "https://store.example";
                        Validating.universe := lit "myuni";
                        Validating.token := None |})) as [_ [_ H]].
  apply (H (lit "universe_token_https___store_example")
           (lit "Obtain the bearer token for the Universe server. Contact the admins or use https://store.example to obtain access.")
           (lit "secret")).
  - vm_compute. reflexivity.
  - vm_compute. reflexivity.
  - discriminate.
Defined.

(** X12. In the simple client [requiredCredentials] reads the
    configuration given to the constructor and throws when it has no
    server URL (or an empty one); otherwise it names exactly one
    credential. [init] derives the name from the configuration it is
    given: when that configuration has the same server URL and a
    universe, [init] succeeds exactly when every credential that
    [requiredCredentials] named is supplied and not empty. *)
Theorem simple_requiredCredentials_and_init (credentials config : gmap jsstring jsstring)
    (w : world Simple.UniverseRAG) :
  (missing (Simple.config (this w)) (lit "serverUrl") = true ->
     Simple.requiredCredentials (this w)
     = Throw (new_Error
                (lit "serverUrl must be specified in the config to determine the credential name")))
  /\ (forall s u,
        Simple.config (this w) !! lit "serverUrl" = Some s -> s <> [] ->
        config !! lit "serverUrl" = Some s ->
        config !! lit "universe" = Some u -> u <> [] ->
        exists required,
          Simple.requiredCredentials (this w) = Normal required
          /\ size required = 1%nat
          /\ (fst (Simple.init credentials config w) = Normal tt
              <-> forall k d, required !! k = Some d ->
                              exists t, credentials !! k = Some t /\ t <> [])).
Proof.
  split.
  - intros Hm. unfold Simple.requiredCredentials. rewrite Hm. reflexivity.
  - intros s u Hs0 Hs' Hs Hu Hu'.
    unfold Simple.requiredCredentials.
    rewrite (missing_false _ _ s Hs0 Hs'), Hs0.
    unfold as_string, default. cbn [from_option id].
    set (credentialName := Simple.generateCredentialName s).
    set (description := lit _ ++ _).
    exists {[credentialName := description]}.
    assert (Hone : forall k d,
               ({[credentialName := description]} : gmap jsstring jsstring) !! k = Some d
               <-> k = credentialName /\ d = description).
    { intros k d. rewrite lookup_singleton_Some. intuition congruence. }
    split; [reflexivity|]. split; [apply map_size_singleton|].
    rewrite (simple_init_run credentials config w s u Hs Hs' Hu Hu').
    fold credentialName. split.
    + intros Hok k d Hk. apply Hone in Hk as [-> _].
      destruct (missing credentials credentialName) eqn:Hm; [discriminate|].
      apply missing_false_inv, Hm.
    + intros Hall. destruct (Hall credentialName description) as [t [Ht Ht']].
      { apply Hone. split; reflexivity. }
      rewrite (missing_false credentials _ t Ht Ht'). reflexivity.
Qed.

Lemma simple_requiredCredentials_and_init_witness :
  let config := sample_config "https://store.example" "myuni" in
  exists required,
    Simple.requiredCredentials (Simple.constructor config) = Normal required
    /\ size required = 1%nat
    /\ (fst (Simple.init sample_credentials config (fresh (Simple.constructor config)))
        = Normal tt
        <-> forall k d, required !! k = Some d ->
                        exists t, sample_credentials !! k = Some t /\ t <> []).
Proof.
  cbv zeta.
  destruct (simple_requiredCredentials_and_init sample_credentials
              (sample_config "https://store.example" "myuni")
              (fresh (Simple.constructor (sample_config "https://store.example" "myuni"))))
    as [_ H].
  apply (H (lit "https://store.example") (lit "myuni"));
    try (vm_compute; reflexivity); discriminate.
Defined.

(** ** The credential name, further *)

Lemma sanitize_is_word (c : N) : is_word (sanitize c) = true.
Proof.
  unfold sanitize, is_word. destruct (is_alnum c) eqn:Hc.
  - rewrite Hc. reflexivity.
  - rewrite N.eqb_refl. apply orb_true_r.
Qed.

(** X13. The credential name is always a name the universe check of the
    validating constructor would pass: it is not empty and is made of
    letters, digits and underscores only, whatever the server URL. *)
Theorem credential_name_is_a_word (serverUrl : jsstring) :
  test_anchored_plus word_char (Simple.generateCredentialName serverUrl) = true
  /\ test_anchored_plus word_char (Validating.generateCredentialName serverUrl) = true.
Proof.
  assert (H : test_anchored_plus word_char (Simple.generateCredentialName serverUrl) = true).
  { rewrite test_word_char. unfold Simple.generateCredentialName.
    rewrite replace_non_alnum. apply andb_true_iff. split.
    - apply negb_true_iff, jsstring_eqb_neq. vm_compute. discriminate.
    - rewrite forallb_app. apply andb_true_iff. split; [vm_compute; reflexivity|].
      induction serverUrl as [|c rest IH]; [reflexivity|].
      cbn [map forallb]. rewrite sanitize_is_word. exact IH. }
  split; exact H.
Qed.

Lemma sanitize_eq_iff (a b : N) : sanitize a = sanitize b <-> same_in_name a b.
Proof.
  unfold sanitize, same_in_name.
  destruct (is_alnum a) eqn:Ha, (is_alnum b) eqn:Hb; split.
  - intros ->. left. reflexivity.
  - intros [->|[H _]]; [reflexivity | discriminate].
  - intros ->. exfalso. vm_compute in Ha. discriminate.
  - intros [->|[H _]]; [congruence | discriminate].
  - intros <-. exfalso. vm_compute in Hb. discriminate.
  - intros [->|[_ H]]; [congruence | discriminate].
  - intros _. right. split; reflexivity.
  - intros _. reflexivity.
Qed.

(** X14. Two server URLs get the same credential name exactly when they
    have the same length and, position by position, the same code unit or
    two code units that are both outside [A-Za-z0-9]: URLs that differ
    only in their punctuation share one credential. *)
Theorem credential_names_collide_iff (url1 url2 : jsstring) :
  Simple.generateCredentialName url1 = Simple.generateCredentialName url2
  <-> Forall2 same_in_name url1 url2.
Proof.
  unfold Simple.generateCredentialName. rewrite !replace_non_alnum. split.
  - intros H. apply app_inv_head in H.
    revert url2 H. induction url1 as [|a r1 IH]; intros [|b r2] H;
      try discriminate; [constructor|].
    cbn [map] in H. injection H as Hab Hr.
    constructor; [apply sanitize_eq_iff, Hab | apply IH, Hr].
  - intros H. f_equal. induction H as [|a b r1 r2 Hab Hr IH]; [reflexivity|].
    cbn [map]. apply sanitize_eq_iff in Hab. rewrite Hab, IH. reflexivity.
Qed.

Lemma credential_names_collide_iff_witness :
  Simple.generateCredentialName (lit "http://a.b:80")
  = Simple.generateCredentialName (lit "http://a-b/80").
Proof.
  apply credential_names_collide_iff.
  repeat (constructor; [first [left; reflexivity | right; split; reflexivity]|]).
  constructor.
Defined.

(** ** Use before init *)

(** X15. Nothing stops an operation on a simple client on which [init]
    has not succeeded: whatever the configuration it was constructed
    with, the request goes to a URL that starts with the text
    ["undefined"], carries [Authorization: Bearer undefined], and the body
    of [addFile] has no ["universe"] property at all. *)
Theorem simple_use_before_init (net : network) (config : gmap jsstring jsstring)
    (fileId content : jsstring) :
  let w := fresh (Simple.constructor config) in
  (exists c,
      Simple.addFile net fileId content w
      = (c, {| this := Simple.constructor config;
               log := [Fetch (lit "undefined/emit")
                         {| method := lit "POST";
                            headers := json_headers (lit "undefined");
                            body := Some (lit "{" ++ quote (lit "thing") ++ lit ":{"
                                          ++ quote (lit "id") ++ lit ":" ++ quote fileId
                                          ++ lit "," ++ quote (lit "text") ++ lit ":"
                                          ++ quote content ++ lit "}}") |}] |}))
  /\ (exists c,
      Simple.deleteFile net fileId w
      = (c, {| this := Simple.constructor config;
               log := [Fetch (lit "undefined/thing/undefined/" ++ fileId)
                         {| method := lit "DELETE";
                            headers := json_headers (lit "undefined");
                            body := None |}] |}))
  /\ (exists c,
      Simple.deleteAllFiles net w
      = (c, {| this := Simple.constructor config;
               log := [Fetch (lit "undefined/universe/undefined")
                         {| method := lit "DELETE";
                            headers := json_headers (lit "undefined");
                            body := None |}] |})).
Proof.
  cbv zeta. split; [|split].
  - rewrite simple_addFile_void, simple_fetchApi_run. cbv zeta.
    cbn [fst snd this log fresh Simple.constructor Simple.serverUrl Simple.universe
         Simple.token of_field truthy app].
    eexists. f_equal. f_equal. f_equal. f_equal. f_equal.
    cbn [stringify join]. unfold quote. rewrite <- !app_assoc. reflexivity.
  - rewrite simple_deleteFile_void, simple_fetchApi_run. cbv zeta.
    cbn [fst snd this log fresh Simple.constructor Simple.serverUrl Simple.universe
         Simple.token of_field truthy app].
    eexists. reflexivity.
  - rewrite simple_deleteAllFiles_void, simple_fetchApi_run. cbv zeta.
    cbn [fst snd this log fresh Simple.constructor Simple.serverUrl Simple.universe
         Simple.token of_field truthy app].
    eexists. reflexivity.
Qed.

(** X16. A validating client whose token is unset (constructed, and
    [init] not yet succeeded) sends its requests all the same, with the
    header [Authorization: Bearer undefined]. *)
Theorem validating_use_before_init (net : network) (fileId content : jsstring)
    (w : world Validating.UniverseRAG)
    (Hunset : Validating.token (this w) = None)
    (Hid : trim fileId <> []) :
  (exists c rest,
      Validating.addFile net fileId content w
      = (c, {| this := this w;
               log := log w
                      ++ Fetch (Validating.serverUrl (this w) ++ lit "/emit")
                           {| method := lit "POST";
                              headers := json_headers (lit "undefined");
                              body := Some (emit_body (Validating.universe (this w))
                                              fileId content) |} :: rest |}))
  /\ (exists c rest,
      Validating.deleteAllFiles net w
      = (c, {| this := this w;
               log := log w
                      ++ delete_all_request (Validating.serverUrl (this w))
                           (Validating.universe (this w)) (lit "undefined") :: rest |})).
Proof.
  split.
  - rewrite (validating_addFile_void net fileId content w Hid),
      validating_fetchApi_run. cbv zeta.
    rewrite Hunset, stringify_emit. cbn [truthy].
    change (shown None) with (lit "undefined").
    destruct (attempt (net (log w) _ _)) as [v|e]; cbn [fst snd];
      eexists _, _; reflexivity.
  - rewrite validating_deleteAllFiles_void, validating_fetchApi_run. cbv zeta.
    rewrite Hunset. cbn [truthy]. change (shown None) with (lit "undefined").
    unfold delete_all_request. rewrite <- ?app_assoc.
    destruct (attempt (net (log w) _ _)) as [v|e]; cbn [fst snd];
      eexists _, _; reflexivity.
Qed.

Lemma validating_use_before_init_witness :
  let c0 := {| Validating.serverUrl := lit "https://store.example";
               Validating.universe := lit "myuni";
               Validating.token := None |} in
  exists c rest,
    Validating.deleteAllFiles net_ok (fresh c0)
    = (c, {| this := c0;
             log := [] ++ delete_all_request (lit "https://store.example") (lit "myuni")
                            (lit "undefined") :: rest |}).
Proof.
  cbv zeta.
  assert (Hid : trim (lit "doc1") <> []) by (vm_compute; discriminate).
  exact (proj2 (validating_use_before_init net_ok (lit "doc1") (lit "text")
                  (fresh {| Validating.serverUrl := lit "https://store.example";
                            Validating.universe := lit "myuni";
                            Validating.token := None |})
                  eq_refl Hid)).
Defined.

(** ** The body of addFile can be read back *)

Lemma hex_value_digit (n : N) : n < 16 -> hex_value (hex_digit n) = n.
Proof.
  intros Hn. unfold hex_value, hex_digit.
  destruct (N.ltb_spec n 10).
  - destruct (N.leb_spec 48 (48 + n)), (N.leb_spec (48 + n) 57); cbn [andb]; lia.
  - destruct (N.leb_spec 48 (87 + n)), (N.leb_spec (87 + n) 57); cbn [andb]; lia.
Qed.

Lemma read_literal (c : N) (t : jsstring) :
  c <> 34 -> c <> 92 ->
  read_string (c :: t)
  = match read_string t with
    | Some (x, r) => Some (c :: x, r)
    | None => None
    end.
Proof.
  intros H34 H92. cbn [read_string].
  destruct (N.eqb_spec c 34); [contradiction|].
  destruct (N.eqb_spec c 92); [contradiction|]. reflexivity.
Qed.

Lemma read_short_escape (e : N) (t : jsstring) :
  e <> 117 ->
  read_string (92 :: e :: t)
  = match read_string t with
    | Some (x, r) => Some (unescape e :: x, r)
    | None => None
    end.
Proof.
  intros H. cbn [read_string]. change (92 =? 34) with false. change (92 =? 92) with true.
  cbn iota. destruct (N.eqb_spec e 117); [contradiction|]. reflexivity.
Qed.

Lemma four_hex_digits (c : N) :
  c < 65536 ->
  (c / 4096) mod 16 * 4096 + (c / 256) mod 16 * 256 + (c / 16) mod 16 * 16 + c mod 16 = c.
Proof.
  intros Hc.
  assert (E1 : c / 16 / 16 = c / 256) by (rewrite N.Div0.div_div; reflexivity).
  assert (E2 : c / 256 / 16 = c / 4096) by (rewrite N.Div0.div_div; reflexivity).
  pose proof (N.div_mod' c 16) as H0.
  pose proof (N.div_mod' (c / 16) 16) as H1. rewrite E1 in H1.
  pose proof (N.div_mod' (c / 256) 16) as H2. rewrite E2 in H2.
  assert (H3 : c / 4096 < 16) by (apply N.Div0.div_lt_upper_bound; lia).
  rewrite (N.mod_small (c / 4096) 16) by exact H3.
  lia.
Qed.

Lemma read_unicode_escape (c : N) (t : jsstring) :
  c < 65536 ->
  read_string (unicode_escape c ++ t)
  = match read_string t with
    | Some (x, r) => Some (c :: x, r)
    | None => None
    end.
Proof.
  intros Hc. unfold unicode_escape.
  change (lit "\u") with [92; 117]. cbn [app read_string].
  change (92 =? 34) with false. change (92 =? 92) with true.
  change (117 =? 117) with true. cbn iota.
  rewrite !hex_value_digit by (apply N.mod_lt; discriminate).
  rewrite four_hex_digits by exact Hc. reflexivity.
Qed.

Lemma read_escape_unit (c : N) (t : jsstring) :
  read_string (escape_unit c ++ t)
  = match read_string t with
    | Some (x, r) => Some (c :: x, r)
    | None => None
    end.
Proof.
  unfold escape_unit.
  destruct (N.eqb_spec c 8) as [->|H8].
  { change (lit "\b") with [92; 98]. cbn [app]. apply read_short_escape. discriminate. }
  destruct (N.eqb_spec c 9) as [->|H9].
  { change (lit "\t") with [92; 116]. cbn [app]. apply read_short_escape. discriminate. }
  destruct (N.eqb_spec c 10) as [->|H10].
  { change (lit "\n") with [92; 110]. cbn [app]. apply read_short_escape. discriminate. }
  destruct (N.eqb_spec c 12) as [->|H12].
  { change (lit "\f") with [92; 102]. cbn [app]. apply read_short_escape. discriminate. }
  destruct (N.eqb_spec c 13) as [->|H13].
  { change (lit "\r") with [92; 114]. cbn [app]. apply read_short_escape. discriminate. }
  destruct (N.eqb_spec c 34) as [->|H34].
  { cbn [app]. apply read_short_escape. discriminate. }
  destruct (N.eqb_spec c 92) as [->|H92].
  { cbn [app]. apply read_short_escape. discriminate. }
  destruct (N.ltb_spec c 32) as [Hlt|Hge].
  - apply read_unicode_escape. lia.
  - cbn [app]. apply read_literal; assumption.
Qed.

Lemma surrogate_below_65536 (c : N) :
  is_high_surrogate c = true \/ is_low_surrogate c = true -> c < 65536 /\ c <> 34 /\ c <> 92.
Proof.
  unfold is_high_surrogate, is_low_surrogate.
  intros [H|H]; apply andb_true_iff in H as [H1 H2];
    apply N.leb_le in H1, H2; lia.
Qed.

(** Reading what [quote_units] wrote, up to the closing quote, gives the
    string back, and what followed the quote. *)
Lemma read_quote_units (s rest : jsstring) :
  read_string (quote_units s ++ 34 :: rest) = Some (s, rest).
Proof.
  enough (H : read_string (quote_units s ++ 34 :: rest) = Some (s, rest)
              /\ forall c, read_string (quote_units (c :: s) ++ 34 :: rest)
                           = Some (c :: s, rest)) by apply H.
  induction s as [|d s' [IH0 IH1]].
  - split; [reflexivity|]. intros c. cbn [quote_units].
    destruct (is_high_surrogate c) eqn:Hh.
    + rewrite read_unicode_escape
        by (apply surrogate_below_65536; left; exact Hh).
      reflexivity.
    + destruct (is_low_surrogate c) eqn:Hl.
      * rewrite <- app_assoc, read_unicode_escape
          by (apply surrogate_below_65536; right; exact Hl).
        reflexivity.
      * rewrite <- app_assoc, read_escape_unit. reflexivity.
  - split; [apply IH1|]. intros c.
    change (quote_units (c :: d :: s'))
      with (if is_high_surrogate c then
              if is_low_surrogate d then c :: d :: quote_units s'
              else unicode_escape c ++ quote_units (d :: s')
            else if is_low_surrogate c then unicode_escape c ++ quote_units (d :: s')
                 else escape_unit c ++ quote_units (d :: s')).
    destruct (is_high_surrogate c) eqn:Hh.
    + destruct (is_low_surrogate d) eqn:Hl.
      * destruct (surrogate_below_65536 c (or_introl Hh)) as (_ & Hc34 & Hc92).
        destruct (surrogate_below_65536 d (or_intror Hl)) as (_ & Hd34 & Hd92).
        cbn [app]. rewrite (read_literal c _ Hc34 Hc92), (read_literal d _ Hd34 Hd92), IH0.
        reflexivity.
      * rewrite <- app_assoc, read_unicode_escape
          by (apply surrogate_below_65536; left; exact Hh).
        rewrite (IH1 d). reflexivity.
    + destruct (is_low_surrogate c) eqn:Hl.
      * rewrite <- app_assoc, read_unicode_escape
          by (apply surrogate_below_65536; right; exact Hl).
        rewrite (IH1 d). reflexivity.
      * rewrite <- app_assoc, read_escape_unit, (IH1 d). reflexivity.
Qed.

Lemma quote_units_inj (a b ra rb : jsstring) :
  quote_units a ++ 34 :: ra = quote_units b ++ 34 :: rb -> a = b /\ ra = rb.
Proof.
  intros H. apply (f_equal read_string) in H.
  rewrite !read_quote_units in H. injection H as -> ->. split; reflexivity.
Qed.

Lemma emit_body_shape (universe fileId content : jsstring) :
  emit_body universe fileId content
  = (lit "{" ++ quote (lit "universe") ++ lit ":" ++ [34])
    ++ quote_units universe
    ++ 34 :: (lit "," ++ quote (lit "thing") ++ lit ":{" ++ quote (lit "id")
              ++ lit ":" ++ [34])
    ++ quote_units fileId
    ++ 34 :: (lit "," ++ quote (lit "text") ++ lit ":" ++ [34])
    ++ quote_units content
    ++ 34 :: lit "}}".
Proof.
  unfold emit_body.
  change (quote universe) with ([34] ++ quote_units universe ++ [34]).
  change (quote fileId) with ([34] ++ quote_units fileId ++ [34]).
  change (quote content) with ([34] ++ quote_units content ++ [34]).
  rewrite <- !app_assoc. reflexivity.
Qed.

(** X17. The JSON text that [addFile] sends can be read back: two calls
    whose bodies are the same text have the same universe, the same
    [fileId] and the same content, whatever quotes, backslashes, control
    characters or surrogates these strings contain. Nothing in a
    [fileId] or a content can pass for another document. *)
Theorem addFile_body_determines_document (universe fileId content
                                          universe' fileId' content' : jsstring) :
  stringify (VObject [(lit "universe", VString universe);
                      (lit "thing", VObject [(lit "id", VString fileId);
                                             (lit "text", VString content)])])
  = stringify (VObject [(lit "universe", VString universe');
                        (lit "thing", VObject [(lit "id", VString fileId');
                                               (lit "text", VString content')])]) ->
  universe = universe' /\ fileId = fileId' /\ content = content'.
Proof.
  rewrite !stringify_emit, !emit_body_shape. intros H.
  apply app_inv_head in H. apply quote_units_inj in H as [-> H].
  apply app_inv_head in H. apply quote_units_inj in H as [-> H].
  apply app_inv_head in H. apply quote_units_inj in H as [-> _].
  repeat split.
Qed.

Lemma addFile_body_determines_document_witness :
  lit "u" = lit "u" /\ lit "a" = lit "a" /\ lit "b" = lit "b".
Proof.
  exact (addFile_body_determines_document (lit "u") (lit "a") (lit "b")
           (lit "u") (lit "a") (lit "b") eq_refl).
Defined.

(** ** The path of deleteFile, further *)

Lemma word_then_slash (u1 u2 f1 f2 : jsstring) :
  forallb is_word u1 = true -> forallb is_word u2 = true ->
  u1 ++ lit "/" ++ f1 = u2 ++ lit "/" ++ f2 ->
  u1 = u2 /\ f1 = f2.
Proof.
  change (lit "/") with [47]. cbn [app].
  revert u2. induction u1 as [|a r1 IH]; intros [|b r2] H1 H2 H; cbn [app] in H.
  - injection H as ->. split; reflexivity.
  - injection H as <- _. cbn [forallb] in H2. discriminate.
  - injection H as -> _. cbn [forallb] in H1. discriminate.
  - injection H as -> H. cbn [forallb] in H1, H2.
    apply andb_true_iff in H1 as [_ H1]. apply andb_true_iff in H2 as [_ H2].
    destruct (IH r2 H1 H2 H) as [-> ->]. split; reflexivity.
Qed.

Lemma test_word_forallb (u : jsstring) :
  test_anchored_plus word_char u = true -> forallb is_word u = true.
Proof.
  rewrite test_word_char. intros H. apply andb_true_iff in H as [_ H]. exact H.
Qed.

(** X18. With a universe name that passed the constructor's check, the
    URL that the validating [deleteFile] requests tells the universe and
    the [fileId] apart: two clients of one server whose first requests for
    a [deleteFile] are equal have the same universe and were given the
    same [fileId]. This is about the URL handed to [fetch], before the
    platform normalises it. *)
Theorem validating_delete_path_is_unambiguous (net : network) (fileId1 fileId2 : jsstring)
    (w1 w2 : world Validating.UniverseRAG)
    (Hserver : Validating.serverUrl (this w1) = Validating.serverUrl (this w2))
    (Hu1 : test_anchored_plus word_char (Validating.universe (this w1)) = true)
    (Hu2 : test_anchored_plus word_char (Validating.universe (this w2)) = true)
    (Hid1 : trim fileId1 <> [])
    (Hid2 : trim fileId2 <> [])
    (Hsame : log (snd (Validating.deleteFile net fileId1 w1)) !! length (log w1)
             = log (snd (Validating.deleteFile net fileId2 w2)) !! length (log w2)) :
  Validating.universe (this w1) = Validating.universe (this w2) /\ fileId1 = fileId2.
Proof.
  assert (Hfirst : forall fileId (w : world Validating.UniverseRAG),
             trim fileId <> [] ->
             log (snd (Validating.deleteFile net fileId w)) !! length (log w)
             = Some (delete_request (Validating.serverUrl (this w))
                       (Validating.universe (this w))
                       (shown (Validating.token (this w))) fileId)).
  { intros fileId w Hid.
    destruct (validating_deleteFile_run net fileId w Hid) as [c [H|H]];
      rewrite H; cbn [snd log];
      rewrite lookup_app_r by lia; rewrite Nat.sub_diag; reflexivity. }
  rewrite (Hfirst fileId1 w1 Hid1), (Hfirst fileId2 w2 Hid2) in Hsame.
  assert (Hurl : Validating.serverUrl (this w1) ++ lit "/thing/"
                 ++ Validating.universe (this w1) ++ lit "/" ++ fileId1
                 = Validating.serverUrl (this w2) ++ lit "/thing/"
                   ++ Validating.universe (this w2) ++ lit "/" ++ fileId2)
    by (unfold delete_request in Hsame; congruence).
  rewrite Hserver in Hurl.
  apply (app_inv_head (Validating.serverUrl (this w2))) in Hurl.
  apply (app_inv_head (lit "/thing/")) in Hurl.
  apply word_then_slash; [apply test_word_forallb, Hu1 | apply test_word_forallb, Hu2 | exact Hurl].
Qed.

Lemma validating_delete_path_is_unambiguous_witness :
  Validating.universe sample_validating = Validating.universe sample_validating
  /\ lit "a/b" = lit "a/b".
Proof.
  assert (Hid : trim (lit "a/b") <> []) by (vm_compute; discriminate).
  exact (validating_delete_path_is_unambiguous net_ok (lit "a/b") (lit "a/b")
           (fresh sample_validating) (fresh sample_validating)
           eq_refl eq_refl eq_refl Hid Hid eq_refl).
Defined.

(** X19. The simple client checks neither the universe name nor the
    [fileId], so its delete path does not tell them apart: with the
    universe [u/x] a [deleteFile] of [y] sends the very request that a
    [deleteFile] of [x/y] sends with the universe [u]. *)
Theorem simple_delete_path_is_ambiguous (net : network) (u x y : jsstring)
    (serverUrl token : option jsstring) (config : gmap jsstring jsstring)
    (l : list event) :
  let client (universe : jsstring) : Simple.UniverseRAG :=
    {| Simple.serverUrl := serverUrl;
       Simple.universe := Some universe;
       Simple.token := token;
       Simple.config := config |} in
  log (snd (Simple.deleteFile net y {| this := client (u ++ lit "/" ++ x); log := l |}))
  = log (snd (Simple.deleteFile net (x ++ lit "/" ++ y) {| this := client u; log := l |})).
Proof.
  cbv zeta. rewrite !simple_deleteFile_void. cbn [snd].
  rewrite !simple_fetchApi_log.
  cbn [this log Simple.serverUrl Simple.universe Simple.token].
  rewrite !shown_Some. rewrite <- !app_assoc. reflexivity.
Qed.

(** ** From the configuration to the request *)

Lemma validating_constructor_fields (URL_parses : jsstring -> bool)
    (config : gmap jsstring jsstring) (c : Validating.UniverseRAG) :
  Validating.constructor URL_parses config = Normal c ->
  config !! lit "serverUrl" = Some (Validating.serverUrl c)
  /\ config !! lit "universe" = Some (Validating.universe c)
  /\ Validating.token c = None.
Proof.
  unfold Validating.constructor.
  destruct (missing config (lit "serverUrl")) eqn:Hs; [discriminate|].
  destruct (missing config (lit "universe")) eqn:Hu; [discriminate|].
  destruct (negb (URL_parses _)); [discriminate|].
  destruct (negb (test_anchored_plus _ _)); [discriminate|].
  intros H. injection H as <-.
  apply missing_false_inv in Hs as [s [Hs _]].
  apply missing_false_inv in Hu as [u [Hu _]].
  rewrite Hs, Hu. repeat split.
Qed.

(** X20. Constructor, [init] and [addFile] of the validating client in a
    row: with a configuration the constructor accepts, the credential
    supplied under the derived name and a [fileId] that is not blank, the
    first request is the [POST] to the configured server URL followed by
    ["/emit"], for the configured universe, with the supplied credential
    as the bearer token. *)
Theorem validating_end_to_end (URL_parses : jsstring -> bool) (net : network)
    (config credentials : gmap jsstring jsstring) (c : Validating.UniverseRAG)
    (t fileId content : jsstring)
    (Hnew : Validating.constructor URL_parses config = Normal c)
    (Hcred : credentials !! Validating.generateCredentialName (Validating.serverUrl c)
             = Some t)
    (Hcred' : t <> [])
    (Hid : trim fileId <> []) :
  exists s u rest,
    config !! lit "serverUrl" = Some s
    /\ config !! lit "universe" = Some u
    /\ fst (Validating.init credentials (fresh c)) = Normal tt
    /\ log (snd (Validating.addFile net fileId content
                   (snd (Validating.init credentials (fresh c)))))
       = emit_request s u t fileId content :: rest.
Proof.
  destruct (validating_constructor_fields URL_parses config c Hnew) as (Hs & Hu & _).
  exists (Validating.serverUrl c), (Validating.universe c).
  rewrite validating_init_run. cbv zeta. cbn [fresh this log].
  rewrite (missing_false credentials _ t Hcred Hcred'), Hcred. cbn [fst snd].
  pose proof (validating_addFile_run net fileId content
                {| this := {| Validating.serverUrl := Validating.serverUrl c;
                              Validating.universe := Validating.universe c;
                              Validating.token := Some t |};
                   log := [] |} t eq_refl Hid) as Hrun.
  cbv zeta in Hrun.
  cbn [this log Validating.serverUrl Validating.universe app] in Hrun.
  rewrite Hrun. unfold emit_request.
  destruct (attempt (net [] _ _)) as [v|e]; cbn [snd log];
    eexists; repeat split; assumption || reflexivity.
Qed.

Lemma validating_end_to_end_witness :
  exists s u rest,
    sample_config "https://store.example" "myuni" !! lit "serverUrl" = Some s
    /\ sample_config "https://store.example" "myuni" !! lit "universe" = Some u
    /\ fst (Validating.init sample_credentials
              (fresh {| Validating.serverUrl := lit "https://store.example";
                        Validating.universe := lit "myuni";
                        Validating.token := None |})) = Normal tt
    /\ log (snd (Validating.addFile net_flaky (lit "doc1") (lit "hello world")
                   (snd (Validating.init sample_credentials
                           (fresh {| Validating.serverUrl := lit "https://store.example";
                                     Validating.universe := lit "myuni";
                                     Validating.token := None |})))))
       = emit_request s u (lit "secret") (lit "doc1") (lit "hello world") :: rest.
Proof.
  assert (Hnew : Validating.constructor sample_URL_parses
                   (sample_config "https://store.example" "myuni")
                 = Normal {| Validating.serverUrl := lit "https://store.example";
                             Validating.universe := lit "myuni";
                             Validating.token := None |})
    by (vm_compute; reflexivity).
  assert (Hcred : sample_credentials
                    !! Validating.generateCredentialName (lit "https://store.example")
                  = Some (lit "secret")) by (vm_compute; reflexivity).
  assert (Hcred' : lit "secret" <> []) by (vm_compute; discriminate).
  assert (Hid : trim (lit "doc1") <> []) by (vm_compute; discriminate).
  exact (validating_end_to_end sample_URL_parses net_flaky _ sample_credentials _
           (lit "secret") (lit "doc1") (lit "hello world") Hnew Hcred Hcred' Hid).
Defined.

(** X21. The same for the simple client: constructed with any
    configuration, initialised with a configuration that has a server URL
    and a universe and with the credential under the derived name, its
    [addFile] sends exactly the [POST] for the server URL and universe
    given to [init] (not those given to the constructor), with the
    supplied credential as the bearer token. *)
Theorem simple_end_to_end (net : network)
    (config0 config credentials : gmap jsstring jsstring)
    (s u t fileId content : jsstring)
    (Hs : config !! lit "serverUrl" = Some s) (Hs' : s <> [])
    (Hu : config !! lit "universe" = Some u) (Hu' : u <> [])
    (Hcred : credentials !! Simple.generateCredentialName s = Some t)
    (Hcred' : t <> []) :
  fst (Simple.init credentials config (fresh (Simple.constructor config0))) = Normal tt
  /\ log (snd (Simple.addFile net fileId content
                 (snd (Simple.init credentials config (fresh (Simple.constructor config0))))))
     = [emit_request s u t fileId content].
Proof.
  rewrite (simple_init_run credentials config _ s u Hs Hs' Hu Hu').
  rewrite (missing_false credentials _ t Hcred Hcred'), Hcred. cbn [fst snd].
  split; [reflexivity|].
  destruct (simple_addFile_run net fileId content
              {| this := {| Simple.serverUrl := Some s;
                            Simple.universe := Some u;
                            Simple.token := Some t;
                            Simple.config :=
                              Simple.config (this (fresh (Simple.constructor config0))) |};
                 log := log (fresh (Simple.constructor config0)) |}
              s u t eq_refl eq_refl eq_refl) as [c Hc].
  rewrite Hc. reflexivity.
Qed.

Lemma simple_end_to_end_witness :
  log (snd (Simple.addFile net_ok (lit "doc1") (lit "hello world")
              (snd (Simple.init sample_credentials
                      (sample_config "https://store.example" "myuni")
                      (fresh (Simple.constructor ∅))))))
  = [emit_request (lit "https://store.example") (lit "myuni") (lit "secret")
       (lit "doc1") (lit "hello world")].
Proof.
  assert (Hs : sample_config "https://store.example" "myuni" !! lit "serverUrl"
               = Some (lit "https://store.example")) by (vm_compute; reflexivity).
  assert (Hu : sample_config "https://store.example" "myuni" !! lit "universe"
               = Some (lit "myuni")) by (vm_compute; reflexivity).
  assert (Hcred : sample_credentials
                    !! Simple.generateCredentialName (lit "https://store.example")
                  = Some (lit "secret")) by (vm_compute; reflexivity).
  assert (Hs' : lit "https://store.example" <> []) by (vm_compute; discriminate).
  assert (Hu' : lit "myuni" <> []) by (vm_compute; discriminate).
  assert (Hcred' : lit "secret" <> []) by (vm_compute; discriminate).
  exact (proj2 (simple_end_to_end net_ok ∅ _ sample_credentials _ _ _
                  (lit "doc1") (lit "hello world") Hs Hs' Hu Hu' Hcred Hcred')).
Defined.
